(** * Student / course GraphQL API: resolvers over a document store

    A shallow embedding of the resolvers of [src/index.js] (the variant
    with authentication, filtering and pagination) and of the two schemas
    of [src/models].

    Conventions.
    - An ObjectId is a natural number; the store hands out fresh ones from
      a counter.  A GraphQL [ID] argument is a string that casts to an
      ObjectId.  A resolver that only hands its [ID] to the store
      ([findById], [findByIdAndUpdate], [$pull], [array.pull], each of
      which casts it) takes the ObjectId; [enrollStudent], whose
      [array.includes] compares the string itself, takes the [ID] as sent.
    - A GraphQL [Int] is an integer of [Z]; no arithmetic is done on it.
    - A nullable input field is [option]: provided with a value, or left
      out.
    - A collection is the list of its documents in insertion order, which
      is the order [find] yields them in.
    - A resolver is a function from the store to a result and the store
      after it; a thrown [Error] is [Err].
    - The store calls follow the contract the resolvers use them under:
      [findById] retrieves by id; [save] runs the validators of the
      document's schema and then writes, inserting a new document (the
      unique index permitting) and writing a retrieved one back under its
      id; [findByIdAndUpdate] sets the provided fields without running
      the validators; [updateMany ... $pull] rewrites every document of
      the collection. *)

From Stdlib Require Import List ZArith String Ascii Bool Arith Lia Permutation.
From Stdlib Require Import DecimalString.
Import ListNotations.
Open Scope string_scope.
Open Scope nat_scope.

(** ** Strings as JavaScript uses them

    A string is the sequence of its code units; [String.length] is
    [s.length]. *)

(** [s.includes(needle)] *)
Fixpoint includes (needle s : string) : bool :=
  String.prefix needle s
  || match s with
     | EmptyString => false
     | String _ s' => includes needle s'
     end.

Fixpoint drop (n : nat) (s : string) : string :=
  match n, s with
  | O, _ => s
  | S _, EmptyString => EmptyString
  | S n', String _ s' => drop n' s'
  end.

(** [s.replace(pat, rep)] with a string pattern: the first occurrence only,
    wherever it stands. *)
Fixpoint replace (pat rep s : string) : string :=
  if String.prefix pat s then rep ++ drop (String.length pat) s
  else match s with
       | EmptyString => EmptyString
       | String c s' => String c (replace pat rep s')
       end.

(** [n.toString()] of a non-negative integer. *)
Definition toString (n : nat) : string := NilZero.string_of_uint (Nat.to_uint n).

(** Truthiness of an optional string and of an optional Int: [undefined],
    the empty string and [0] are falsy. *)
Definition truthyStr (o : option string) : bool :=
  match o with
  | Some s => negb (s =? "")%string
  | None => false
  end.

Definition truthyInt (o : option Z) : bool :=
  match o with
  | Some z => negb (z =? 0)%Z
  | None => false
  end.

(** [o || d] on an optional Int. *)
Definition orInt (o : option Z) (d : Z) : Z :=
  match o with
  | Some z => if (z =? 0)%Z then d else z
  | None => d
  end.

(** ** Data model *)

Definition Id := nat.

(** A GraphQL [ID] as the client sent it: the ObjectId the string casts
    to, and whether the string is the 24 lower-case hex digits that
    ObjectId prints as, which is how the server shows ids.  The cast also
    accepts the digits a to f in upper case, so an ObjectId with such a
    digit has other spellings. *)
Record ID := mkID {
  objectId : Id;
  lowerHex : bool
}.

(** The id as the server prints it, and a spelling of it in upper case. *)
Definition hex (i : Id) : ID := mkID i true.

Definition upperHex (i : Id) : ID := mkID i false.

(** Membership among ObjectIds, as [$in] decides it. *)
Definition hasId (x : Id) (l : list Id) : bool := existsb (Nat.eqb x) l.

(** [array.includes(x)] on an array of ObjectIds, [x] the string as sent:
    each element is compared with the string through its printed form, so
    only the lower-case spelling of a listed id is found. *)
Definition arrayIncludes (x : ID) (l : list Id) : bool :=
  lowerHex x && hasId (objectId x) l.

(** [array.pull(x)] and [$pull]: [x] is cast, and every occurrence goes. *)
Definition pull (x : Id) (l : list Id) : list Id :=
  filter (fun y => negb (y =? x)) l.

(** [if (!array.includes(x)) array.push(x)]: [push] casts what it adds. *)
Definition pushUnique (x : ID) (l : list Id) : list Id :=
  if arrayIncludes x l then l else l ++ [objectId x].

Module Student.
Record t := mk {
  id : Id;
  name : string;
  email : string;
  age : Z;
  major : string;
  courses : list Id
}.
Definition setCourses (cs : list Id) (s : t) : t :=
  mk (id s) (name s) (email s) (age s) (major s) cs.
End Student.

Module Course.
Record t := mk {
  id : Id;
  title : string;
  code : string;
  credits : Z;
  instructor : string;
  students : list Id
}.
Definition setStudents (ss : list Id) (c : t) : t :=
  mk (id c) (title c) (code c) (credits c) (instructor c) ss.
End Course.

(** An identity of the in-memory [users] list. *)
Module User.
Record t := mk {
  id : string;
  email : string;
  password : string
}.
End User.

(** The claim set a verified token carries. *)
Record Claims := mkClaims {
  claim_id : string;
  claim_email : string
}.

(** GraphQL input types.  [StudentInput] and [StudentUpdateInput] have the
    same four nullable fields. *)
Record StudentInput := mkStudentInput {
  in_name : option string;
  in_email : option string;
  in_age : option Z;
  in_major : option string
}.

Definition StudentUpdateInput := StudentInput.

Record CourseInput := mkCourseInput {
  in_title : string;
  in_code : string;
  in_credits : Z;
  in_instructor : string
}.

Record CourseUpdateInput := mkCourseUpdateInput {
  up_title : option string;
  up_code : option string;
  up_credits : option Z;
  up_instructor : option string
}.

Record ListOptions := mkListOptions {
  limit : option Z;
  offset : option Z;
  sortBy : option string;
  sortOrder : option string
}.

Record StudentFilter := mkStudentFilter {
  f_major : option string;
  nameContains : option string;
  emailContains : option string;
  minAge : option Z;
  maxAge : option Z
}.

Record CourseFilter := mkCourseFilter {
  codePrefix : option string;
  titleContains : option string;
  f_instructor : option string;
  minCredits : option Z;
  maxCredits : option Z
}.

(** The GraphQL types [User] and [AuthPayload]: what a response can show of
    an identity. *)
Record UserView := mkUserView {
  view_id : string;
  view_email : string
}.

Record AuthPayload := mkAuthPayload {
  token : string;
  user : UserView
}.

(** ** Errors and results *)

Inductive Error : Set :=
| UNAUTHENTICATED
| InvalidEmail
| StudentTooYoung        (* "Student must be >= 16" *)
| EmailAlreadyExists
| CreditsOutOfRange      (* "Credits must be between 1 and 6" *)
| CourseCodeExists
| StudentNotFound
| CourseNotFound
| InvalidIDs             (* an id that does not resolve, in enroll and unenroll *)
| PasswordTooShort
| UserNotFound
| InvalidPassword
| TypeError              (* a method called on [undefined] *)
| ValidationError        (* the schema refuses a new document *)
| DuplicateKey           (* the unique index refuses a write *)
| BadValue.              (* the store refuses a negative skip *)

Inductive Result (A : Type) : Type :=
| Ok (a : A)
| Err (e : Error).

Arguments Ok {A} a.
Arguments Err {A} e.

Definition isErr {A} (r : Result A) : bool :=
  match r with
  | Ok _ => false
  | Err _ => true
  end.

(** ** The store: two collections and the id counter *)

Record Store := mkStore {
  studentDocs : list Student.t;
  courseDocs : list Course.t;
  nextId : Id
}.

Definition emptyStore : Store := mkStore [] [] 0.

Definition findStudent (i : Id) (l : list Student.t) : option Student.t :=
  find (fun s => Student.id s =? i) l.

Definition findCourse (i : Id) (l : list Course.t) : option Course.t :=
  find (fun c => Course.id c =? i) l.

(** The write of a document under its id, as [save] and
    [findByIdAndUpdate] end in it. *)
Definition writeStudent (s : Student.t) (st : Store) : Store :=
  mkStore
    (map (fun d => if Student.id d =? Student.id s then s else d) (studentDocs st))
    (courseDocs st) (nextId st).

Definition writeCourse (c : Course.t) (st : Store) : Store :=
  mkStore (studentDocs st)
    (map (fun d => if Course.id d =? Course.id c then c else d) (courseDocs st))
    (nextId st).

(** The validators of the schemas of [src/models]: a [required] string
    is not empty, [min] and [max] bound a number.  The id arrays carry no
    validator. *)
Definition validStudent (s : Student.t) : bool :=
  negb (Student.name s =? "")%string
  && negb (Student.email s =? "")%string
  && (16 <=? Student.age s)%Z.

Definition validCourse (c : Course.t) : bool :=
  negb (Course.title c =? "")%string
  && negb (Course.code c =? "")%string
  && (1 <=? Course.credits c)%Z && (Course.credits c <=? 6)%Z
  && negb (Course.instructor c =? "")%string.

(** [doc.save()] on a retrieved document: validate, then write. *)
Definition saveStudent (s : Student.t) (st : Store) : Result unit * Store :=
  if validStudent s then (Ok tt, writeStudent s st) else (Err ValidationError, st).

Definition saveCourse (c : Course.t) (st : Store) : Result unit * Store :=
  if validCourse c then (Ok tt, writeCourse c st) else (Err ValidationError, st).

(** [new Student(input)]: a [required] field that is missing fails
    validation as an empty one does; [major] defaults to the empty string;
    a new document has no relation yet. *)
Definition newStudent (i : Id) (input : StudentInput) : option Student.t :=
  match in_name input, in_email input, in_age input with
  | Some n, Some e, Some a =>
      let s := Student.mk i n e a (match in_major input with Some m => m | None => "" end) [] in
      if validStudent s then Some s else None
  | _, _, _ => None
  end.

Definition newCourse (i : Id) (input : CourseInput) : option Course.t :=
  let c := Course.mk i (in_title input) (in_code input) (in_credits input)
             (in_instructor input) [] in
  if validCourse c then Some c else None.

(** [new Student(input)] followed by [save()]. *)
Definition insertStudent (input : StudentInput) (st : Store)
  : Result Student.t * Store :=
  match newStudent (nextId st) input with
  | None => (Err ValidationError, st)
  | Some s =>
      if existsb (fun d => (Student.email d =? Student.email s)%string) (studentDocs st)
      then (Err DuplicateKey, st)
      else (Ok s, mkStore (studentDocs st ++ [s]) (courseDocs st) (S (nextId st)))
  end.

Definition insertCourse (input : CourseInput) (st : Store)
  : Result Course.t * Store :=
  match newCourse (nextId st) input with
  | None => (Err ValidationError, st)
  | Some c =>
      if existsb (fun d => (Course.code d =? Course.code c)%string) (courseDocs st)
      then (Err DuplicateKey, st)
      else (Ok c, mkStore (studentDocs st) (courseDocs st ++ [c]) (S (nextId st)))
  end.

(** The [$set] of the provided fields. *)
Definition orElse {A} (o : option A) (d : A) : A :=
  match o with
  | Some a => a
  | None => d
  end.

Definition patchStudent (input : StudentUpdateInput) (s : Student.t) : Student.t :=
  Student.mk (Student.id s)
    (orElse (in_name input) (Student.name s))
    (orElse (in_email input) (Student.email s))
    (orElse (in_age input) (Student.age s))
    (orElse (in_major input) (Student.major s))
    (Student.courses s).

Definition patchCourse (input : CourseUpdateInput) (c : Course.t) : Course.t :=
  Course.mk (Course.id c)
    (orElse (up_title input) (Course.title c))
    (orElse (up_code input) (Course.code c))
    (orElse (up_credits input) (Course.credits c))
    (orElse (up_instructor input) (Course.instructor c))
    (Course.students c).

(** The unique index on [email] (on [code]) as an update meets it: the
    update sets the field, and another document already holds the value. *)
Definition emailTaken (i : Id) (e : option string) (l : list Student.t) : bool :=
  match e with
  | Some e => existsb (fun d => negb (Student.id d =? i) && (Student.email d =? e)%string) l
  | None => false
  end.

Definition codeTaken (i : Id) (c : option string) (l : list Course.t) : bool :=
  match c with
  | Some c => existsb (fun d => negb (Course.id d =? i) && (Course.code d =? c)%string) l
  | None => false
  end.

(** [Model.findByIdAndUpdate(id, input, { new: true })]: [None] when the id
    does not resolve. *)
Definition findStudentByIdAndUpdate (i : Id) (input : StudentUpdateInput) (st : Store)
  : Result (option Student.t) * Store :=
  match findStudent i (studentDocs st) with
  | None => (Ok None, st)
  | Some s =>
      if emailTaken i (in_email input) (studentDocs st) then (Err DuplicateKey, st)
      else let s' := patchStudent input s in (Ok (Some s'), writeStudent s' st)
  end.

Definition findCourseByIdAndUpdate (i : Id) (input : CourseUpdateInput) (st : Store)
  : Result (option Course.t) * Store :=
  match findCourse i (courseDocs st) with
  | None => (Ok None, st)
  | Some c =>
      if codeTaken i (up_code input) (courseDocs st) then (Err DuplicateKey, st)
      else let c' := patchCourse input c in (Ok (Some c'), writeCourse c' st)
  end.

(** [Course.updateMany({}, { $pull: { students: id } })] and its mirror. *)
Definition pullStudentEverywhere (i : Id) (st : Store) : Store :=
  mkStore (studentDocs st)
    (map (fun c => Course.setStudents (pull i (Course.students c)) c) (courseDocs st))
    (nextId st).

Definition pullCourseEverywhere (i : Id) (st : Store) : Store :=
  mkStore
    (map (fun s => Student.setCourses (pull i (Student.courses s)) s) (studentDocs st))
    (courseDocs st) (nextId st).

(** [doc.deleteOne()] *)
Definition deleteStudentDoc (i : Id) (st : Store) : Store :=
  mkStore (filter (fun s => negb (Student.id s =? i)) (studentDocs st))
    (courseDocs st) (nextId st).

Definition deleteCourseDoc (i : Id) (st : Store) : Store :=
  mkStore (studentDocs st)
    (filter (fun c => negb (Course.id c =? i)) (courseDocs st)) (nextId st).

(** ** Cursors: skip and limit

    [skip] refuses a negative count.  [limit(0)] is no limit; a negative
    limit asks for that many documents in a single batch, and a first batch
    holds at most [firstBatch] documents. *)
Definition firstBatch : nat := 101.

Definition cursorSkip {A} (n : Z) (l : list A) : Result (list A) :=
  if (n <? 0)%Z then Err BadValue else Ok (skipn (Z.to_nat n) l).

Definition cursorLimit {A} (n : Z) (l : list A) : list A :=
  if (n =? 0)%Z then l
  else if (n <? 0)%Z then firstn (Nat.min (Z.to_nat (- n)) firstBatch) l
  else firstn (Z.to_nat n) l.

(** ** Collaborators

    The regular-expression engine and the store's sort order are used as
    they come: [regexTest pattern ci subject] is the [$regex] match of
    [pattern], case-insensitive when [ci], for a pattern the engine
    accepts; a sort rearranges the documents it is given. *)
Record Env := mkEnv {
  regexTest : string -> bool -> string -> bool;
  sortStudents : string -> bool -> list Student.t -> list Student.t;
  sortCourses : string -> bool -> list Course.t -> list Course.t;
  sortStudents_perm : forall f d l, Permutation (sortStudents f d l) l;
  sortCourses_perm : forall f d l, Permutation (sortCourses f d l) l
}.

(** The token and password primitives, with the process-wide secret set,
    and [String.prototype.toLowerCase]. *)
Record Auth := mkAuth {
  toLowerCase : string -> string;
  bcryptHash : string -> nat -> string -> string;   (* password, rounds, salt *)
  bcryptCompare : string -> string -> bool;
  jwtSign : Claims -> nat -> string;                (* claims, time of issue *)
  jwtVerify : string -> option Claims               (* [None]: it throws *)
}.

(** ** Token helpers *)

Definition createToken (A : Auth) (u : User.t) (now : nat) : string :=
  jwtSign A (mkClaims (User.id u) (User.email u)) now.

Definition getUserFromToken (A : Auth) (authHeader : string) : option Claims :=
  if (authHeader =? "")%string then None
  else jwtVerify A (replace "Bearer " "" authHeader).

(** The server's [context]: [req.headers.authorization || ""]. *)
Definition context (A : Auth) (authorization : option string) : option Claims :=
  getUserFromToken A (orElse authorization "").

(** ** Queries *)

(** A [{ $gte, $lte }] constraint, each bound present or not. *)
Record Range := mkRange {
  gte : option Z;
  lte : option Z
}.

Definition inRange (r : Range) (x : Z) : bool :=
  match gte r with Some m => (m <=? x)%Z | None => true end
  && match lte r with Some m => (x <=? m)%Z | None => true end.

(** [if (lo || hi) { q = {}; if (lo) q.$gte = lo; if (hi) q.$lte = hi }] *)
Definition rangeQuery (lo hi : option Z) : option Range :=
  if truthyInt lo || truthyInt hi
  then Some (mkRange (if truthyInt lo then lo else None)
                     (if truthyInt hi then hi else None))
  else None.

Definition whenTruthy (o : option string) : option string :=
  if truthyStr o then o else None.

(** The query object of [getAllStudents]; a key that is not set is [None]. *)
Record StudentQuery := mkStudentQuery {
  q_major : option string;
  q_name : option string;    (* { $regex, $options: "i" } *)
  q_email : option string;   (* { $regex, $options: "i" } *)
  q_age : option Range
}.

Record CourseQuery := mkCourseQuery {
  q_title : option string;   (* { $regex, $options: "i" } *)
  q_code : option string;    (* { $regex, $options: "i" } *)
  q_instructor : option string;
  q_credits : option Range
}.

(** [filter?.field] *)
Definition field {F A} (filter : option F) (get : F -> option A) : option A :=
  match filter with
  | Some f => get f
  | None => None
  end.

Definition studentQuery (filter : option StudentFilter) : StudentQuery :=
  mkStudentQuery
    (whenTruthy (field filter f_major))
    (whenTruthy (field filter nameContains))
    (whenTruthy (field filter emailContains))
    (rangeQuery (field filter minAge) (field filter maxAge)).

Definition courseQuery (filter : option CourseFilter) : CourseQuery :=
  mkCourseQuery
    (whenTruthy (field filter titleContains))
    (match whenTruthy (field filter codePrefix) with
     | Some p => Some ("^" ++ p)
     | None => None
     end)
    (whenTruthy (field filter f_instructor))
    (rangeQuery (field filter minCredits) (field filter maxCredits)).

Definition holds {A} (o : option A) (p : A -> bool) : bool :=
  match o with
  | Some a => p a
  | None => true
  end.

Section Resolvers.

Variable E : Env.

Definition matchesStudent (q : StudentQuery) (s : Student.t) : bool :=
  holds (q_major q) (fun m => (Student.major s =? m)%string)
  && holds (q_name q) (fun p => regexTest E p true (Student.name s))
  && holds (q_email q) (fun p => regexTest E p true (Student.email s))
  && holds (q_age q) (fun r => inRange r (Student.age s)).

Definition matchesCourse (q : CourseQuery) (c : Course.t) : bool :=
  holds (q_title q) (fun p => regexTest E p true (Course.title c))
  && holds (q_code q) (fun p => regexTest E p true (Course.code c))
  && holds (q_instructor q) (fun i => (Course.instructor c =? i)%string)
  && holds (q_credits q) (fun r => inRange r (Course.credits c)).

(** [options.sortOrder === "DESC" ? -1 : 1], as a flag. *)
Definition descending (options : option ListOptions) : bool :=
  match field options sortOrder with
  | Some o => (o =? "DESC")%string
  | None => false
  end.

(** [Math.min(options?.limit || 10, 50)] and [options?.offset || 0] *)
Definition pageLimit (options : option ListOptions) : Z :=
  Z.min (orInt (field options limit) 10) 50.

Definition pageOffset (options : option ListOptions) : Z :=
  orInt (field options offset) 0.

(** [Student.find(query)], sorted when [sortBy] is given, then
    [skip(offset).limit(limit)].  The result is the documents of the page;
    [populate] changes how their relations are shown. *)
Definition getAllStudents (filter : option StudentFilter) (options : option ListOptions)
  (st : Store) : Result (list Student.t) :=
  let query := studentQuery filter in
  let students := List.filter (matchesStudent query) (studentDocs st) in
  let students :=
    match whenTruthy (field options sortBy) with
    | Some f => sortStudents E f (descending options) students
    | None => students
    end in
  match cursorSkip (pageOffset options) students with
  | Err e => Err e
  | Ok students => Ok (cursorLimit (pageLimit options) students)
  end.

Definition getAllCourses (filter : option CourseFilter) (options : option ListOptions)
  (st : Store) : Result (list Course.t) :=
  let query := courseQuery filter in
  let courses := List.filter (matchesCourse query) (courseDocs st) in
  let courses :=
    match whenTruthy (field options sortBy) with
    | Some f => sortCourses E f (descending options) courses
    | None => courses
    end in
  match cursorSkip (pageOffset options) courses with
  | Err e => Err e
  | Ok courses => Ok (cursorLimit (pageLimit options) courses)
  end.

(** ** Mutations on students *)

Definition addStudent (user : option Claims) (input : StudentInput) (st : Store)
  : Result Student.t * Store :=
  match user with
  | None => (Err UNAUTHENTICATED, st)
  | Some _ =>
      match in_email input with
      | None => (Err TypeError, st)
      | Some e =>
          if negb (includes "@" e) then (Err InvalidEmail, st)
          else if match in_age input with Some a => (a <? 16)%Z | None => false end
          then (Err StudentTooYoung, st)
          else if existsb (fun s => regexTest E ("^" ++ e ++ "$") true (Student.email s))
                    (studentDocs st)
          then (Err EmailAlreadyExists, st)
          else insertStudent input st
      end
  end.

Definition updateStudent (user : option Claims) (i : Id) (input : StudentUpdateInput)
  (st : Store) : Result Student.t * Store :=
  match user with
  | None => (Err UNAUTHENTICATED, st)
  | Some _ =>
      if truthyStr (in_email input) && negb (includes "@" (orElse (in_email input) ""))
      then (Err InvalidEmail, st)
      else match findStudentByIdAndUpdate i input st with
           | (Err e, st') => (Err e, st')
           | (Ok None, st') => (Err StudentNotFound, st')
           | (Ok (Some updated), st') => (Ok updated, st')
           end
  end.

Definition deleteStudent (user : option Claims) (i : Id) (st : Store)
  : Result bool * Store :=
  match user with
  | None => (Err UNAUTHENTICATED, st)
  | Some _ =>
      match findStudent i (studentDocs st) with
      | None => (Ok false, st)
      | Some student =>
          let st := pullStudentEverywhere i st in
          let st := deleteStudentDoc (Student.id student) st in
          (Ok true, st)
      end
  end.

(** ** Mutations on courses *)

Definition addCourse (user : option Claims) (input : CourseInput) (st : Store)
  : Result Course.t * Store :=
  match user with
  | None => (Err UNAUTHENTICATED, st)
  | Some _ =>
      if ((in_credits input <? 1) || (6 <? in_credits input))%Z
      then (Err CreditsOutOfRange, st)
      else if existsb (fun c => regexTest E ("^" ++ in_code input ++ "$") true (Course.code c))
                (courseDocs st)
      then (Err CourseCodeExists, st)
      else insertCourse input st
  end.

Definition updateCourse (user : option Claims) (i : Id) (input : CourseUpdateInput)
  (st : Store) : Result Course.t * Store :=
  match user with
  | None => (Err UNAUTHENTICATED, st)
  | Some _ =>
      match findCourseByIdAndUpdate i input st with
      | (Err e, st') => (Err e, st')
      | (Ok None, st') => (Err CourseNotFound, st')
      | (Ok (Some updated), st') => (Ok updated, st')
      end
  end.

Definition deleteCourse (user : option Claims) (i : Id) (st : Store)
  : Result bool * Store :=
  match user with
  | None => (Err UNAUTHENTICATED, st)
  | Some _ =>
      match findCourse i (courseDocs st) with
      | None => (Ok false, st)
      | Some course =>
          let st := pullCourseEverywhere i st in
          let st := deleteCourseDoc (Course.id course) st in
          (Ok true, st)
      end
  end.

(** ** Enrollment

    The two [save] calls follow each other with nothing to undo the first
    when the second is refused.  The returned student is the saved
    document; [populate] changes how its [courses] are shown, not what is
    stored. *)

Definition enrollStudent (user : option Claims) (studentId courseId : ID) (st : Store)
  : Result Student.t * Store :=
  match user with
  | None => (Err UNAUTHENTICATED, st)
  | Some _ =>
      match findStudent (objectId studentId) (studentDocs st),
            findCourse (objectId courseId) (courseDocs st) with
      | Some student, Some course =>
          let student :=
            Student.setCourses (pushUnique courseId (Student.courses student)) student in
          let course :=
            Course.setStudents (pushUnique studentId (Course.students course)) course in
          match saveStudent student st with
          | (Err e, st) => (Err e, st)
          | (Ok _, st) =>
              match saveCourse course st with
              | (Err e, st) => (Err e, st)
              | (Ok _, st) => (Ok student, st)
              end
          end
      | _, _ => (Err InvalidIDs, st)
      end
  end.

Definition unenrollStudent (user : option Claims) (studentId courseId : Id) (st : Store)
  : Result Student.t * Store :=
  match user with
  | None => (Err UNAUTHENTICATED, st)
  | Some _ =>
      match findStudent studentId (studentDocs st), findCourse courseId (courseDocs st) with
      | Some student, Some course =>
          let student :=
            Student.setCourses (pull courseId (Student.courses student)) student in
          let course :=
            Course.setStudents (pull studentId (Course.students course)) course in
          match saveStudent student st with
          | (Err e, st) => (Err e, st)
          | (Ok _, st) =>
              match saveCourse course st with
              | (Err e, st) => (Err e, st)
              | (Ok _, st) => (Ok student, st)
              end
          end
      | _, _ => (Err InvalidIDs, st)
      end
  end.

(** The outcomes of writing a student and then a course, as [enrollStudent]
    and [unenrollStudent] do after changing the two arrays. *)
Definition saveBoth (s : Student.t) (c : Course.t) (st : Store) : Result Student.t * Store :=
  if validStudent s
  then if validCourse c
       then (Ok s, writeCourse c (writeStudent s st))
       else (Err ValidationError, writeStudent s st)
  else (Err ValidationError, st).

(** ** The guarded mutations as one request type *)

Inductive Mutation : Type :=
| AddStudent (input : StudentInput)
| UpdateStudent (i : Id) (input : StudentUpdateInput)
| DeleteStudent (i : Id)
| AddCourse (input : CourseInput)
| UpdateCourse (i : Id) (input : CourseUpdateInput)
| DeleteCourse (i : Id)
| EnrollStudent (studentId courseId : ID)
| UnenrollStudent (studentId courseId : Id).

Inductive Value : Type :=
| VStudent (s : Student.t)
| VCourse (c : Course.t)
| VBool (b : bool).

Definition lift {A} (inj : A -> Value) (r : Result A * Store) : Result Value * Store :=
  match r with
  | (Ok a, st) => (Ok (inj a), st)
  | (Err e, st) => (Err e, st)
  end.

Definition execute (user : option Claims) (m : Mutation) (st : Store)
  : Result Value * Store :=
  match m with
  | AddStudent input => lift VStudent (addStudent user input st)
  | UpdateStudent i input => lift VStudent (updateStudent user i input st)
  | DeleteStudent i => lift VBool (deleteStudent user i st)
  | AddCourse input => lift VCourse (addCourse user input st)
  | UpdateCourse i input => lift VCourse (updateCourse user i input st)
  | DeleteCourse i => lift VBool (deleteCourse user i st)
  | EnrollStudent s c => lift VStudent (enrollStudent user s c st)
  | UnenrollStudent s c => lift VStudent (unenrollStudent user s c st)
  end.

(** The stores the API can bring about: from the empty store, by any
    sequence of guarded mutations, whoever calls them and whether or not
    they run to completion. *)
Inductive reachable : Store -> Prop :=
| reach_empty : reachable emptyStore
| reach_step st user m : reachable st -> reachable (snd (execute user m st)).

(** The stores reached through mutations that all ran to completion. *)
Inductive completed : Store -> Prop :=
| done_empty : completed emptyStore
| done_step st user m v st' :
    completed st -> execute user m st = (Ok v, st') -> completed st'.

(** The request spells its ids as the server prints them.  Only
    [enrollStudent] can tell. *)
Definition asPrinted (m : Mutation) : bool :=
  match m with
  | EnrollStudent studentId courseId => lowerHex studentId && lowerHex courseId
  | _ => true
  end.

(** The stores the API can bring about for clients that send ids back as
    they were printed. *)
Inductive reachableAsPrinted : Store -> Prop :=
| printed_empty : reachableAsPrinted emptyStore
| printed_step st user m :
    reachableAsPrinted st -> asPrinted m = true ->
    reachableAsPrinted (snd (execute user m st)).

End Resolvers.

(** ** Signup and login over the in-memory [users] list *)

Section AuthFlows.

Variable A : Auth.

Definition findUser (email : string) (users : list User.t) : option User.t :=
  find (fun u => (toLowerCase A (User.email u) =? toLowerCase A email)%string) users.

(** [now] is [Date.now()], [salt] the salt [bcrypt.hash] draws. *)
Definition signup (email password : string) (now : nat) (salt : string)
  (users : list User.t) : Result (string * User.t) * list User.t :=
  match findUser email users with
  | Some _ => (Err EmailAlreadyExists, users)
  | None =>
      if negb (includes "@" email) then (Err InvalidEmail, users)
      else if String.length password <? 6 then (Err PasswordTooShort, users)
      else
        let hashed := bcryptHash A password 10 salt in
        let newUser := User.mk (toString now) email hashed in
        let users := (users ++ [newUser])%list in
        let token := createToken A newUser now in
        (Ok (token, newUser), users)
  end.

Definition login (email password : string) (now : nat) (users : list User.t)
  : Result (string * User.t) * list User.t :=
  match findUser email users with
  | None => (Err UserNotFound, users)
  | Some user =>
      if negb (bcryptCompare A password (User.password user))
      then (Err InvalidPassword, users)
      else (Ok (createToken A user now, user), users)
  end.

End AuthFlows.

(** What the response shows of a resolver's [{ token, user }]: the fields
    of the GraphQL types [AuthPayload] and [User]. *)
Definition authPayload (r : string * User.t) : AuthPayload :=
  mkAuthPayload (fst r) (mkUserView (User.id (snd r)) (User.email (snd r))).

(** ** A reference instance of the collaborators

    Enough of a regular-expression engine for patterns without
    metacharacters other than the anchors [^] and [$], and a stable
    insertion sort on the scalar fields; used to run the resolvers on
    concrete stores. *)

Definition lowerAscii (c : ascii) : ascii :=
  let n := nat_of_ascii c in
  if (65 <=? n) && (n <=? 90) then ascii_of_nat (n + 32) else c.

Fixpoint lower (s : string) : string :=
  match s with
  | EmptyString => EmptyString
  | String c s' => String (lowerAscii c) (lower s')
  end.

Fixpoint stripDollar (s : string) : bool * string :=
  match s with
  | EmptyString => (false, EmptyString)
  | String c s' =>
      match s' with
      | EmptyString => if Ascii.eqb c "$" then (true, EmptyString) else (false, s)
      | _ => let (b, r) := stripDollar s' in (b, String c r)
      end
  end.

Fixpoint isSuffix (p s : string) : bool :=
  (p =? s)%string
  || match s with
     | EmptyString => false
     | String _ s' => isSuffix p s'
     end.

Definition literalRegex (pattern : string) (ci : bool) (subject : string) : bool :=
  let fromStart := String.prefix "^" pattern in
  let p := if fromStart then drop 1 pattern else pattern in
  let (toEnd, p) := stripDollar p in
  let p := if ci then lower p else p in
  let s := if ci then lower subject else subject in
  match fromStart, toEnd with
  | true, true => (p =? s)%string
  | true, false => String.prefix p s
  | false, true => isSuffix p s
  | false, false => includes p s
  end.

Inductive SortKey : Set :=
| KNull
| KNum (z : Z)
| KStr (s : string).

Definition keyLeb (a b : SortKey) : bool :=
  match a, b with
  | KNull, _ => true
  | _, KNull => false
  | KNum x, KNum y => (x <=? y)%Z
  | KNum _, KStr _ => true
  | KStr _, KNum _ => false
  | KStr x, KStr y => String.leb x y
  end.

Section InsertionSort.

Context {T : Type}.
Variable key : T -> SortKey.
Variable desc : bool.

Definition before (a b : T) : bool :=
  if desc then keyLeb (key b) (key a) else keyLeb (key a) (key b).

Fixpoint insertSorted (x : T) (l : list T) : list T :=
  match l with
  | [] => [x]
  | y :: l' => if before x y then x :: l else y :: insertSorted x l'
  end.

Definition sortByKey (l : list T) : list T :=
  fold_right insertSorted [] l.

Lemma insertSorted_perm x l : Permutation (insertSorted x l) (x :: l).
Proof.
  induction l as [|y l IH]; simpl.
  - apply Permutation_refl.
  - destruct (before x y).
    + apply Permutation_refl.
    + eapply perm_trans; [apply perm_skip, IH | apply perm_swap].
Qed.

Lemma sortByKey_perm l : Permutation (sortByKey l) l.
Proof.
  induction l as [|x l IH]; simpl.
  - constructor.
  - eapply perm_trans; [apply insertSorted_perm | apply perm_skip, IH].
Qed.

End InsertionSort.

Definition studentKey (f : string) (s : Student.t) : SortKey :=
  if (f =? "name")%string then KStr (Student.name s)
  else if (f =? "email")%string then KStr (Student.email s)
  else if (f =? "major")%string then KStr (Student.major s)
  else if (f =? "age")%string then KNum (Student.age s)
  else KNull.

Definition courseKey (f : string) (c : Course.t) : SortKey :=
  if (f =? "title")%string then KStr (Course.title c)
  else if (f =? "code")%string then KStr (Course.code c)
  else if (f =? "instructor")%string then KStr (Course.instructor c)
  else if (f =? "credits")%string then KNum (Course.credits c)
  else KNull.

Definition refEnv : Env :=
  mkEnv literalRegex
    (fun f d => sortByKey (studentKey f) d)
    (fun f d => sortByKey (courseKey f) d)
    (fun f d l => sortByKey_perm (studentKey f) d l)
    (fun f d l => sortByKey_perm (courseKey f) d l).

(** ** Concrete requests and stores *)

Definition alice : Claims := mkClaims "1700000000000" "alice@uni.edu".

Definition studentInput (n e : string) (a : Z) : StudentInput :=
  mkStudentInput (Some n) (Some e) (Some a) None.

(** Run a list of mutations as [alice], keeping the last store. *)
Definition runAll (ms : list Mutation) (st : Store) : Store :=
  fold_left (fun st m => snd (execute refEnv (Some alice) m st)) ms st.

(** One student and one course, not yet related. *)
Definition registered : Store :=
  runAll [ AddStudent (studentInput "Ann" "ann@uni.edu" 20);
           AddCourse (mkCourseInput "Logic" "CS101" 3 "Turing") ] emptyStore.

(** One student, one course, the student enrolled. *)
Definition campus : Store :=
  runAll [ AddStudent (studentInput "Ann" "ann@uni.edu" 20);
           AddCourse (mkCourseInput "Logic" "CS101" 3 "Turing");
           EnrollStudent (hex 0) (hex 1) ] emptyStore.

(** Fifty-one students, added one after the other. *)
Definition crowd : Store :=
  runAll
    (map (fun n => AddStudent (studentInput ("Student " ++ toString n)
                                 ("s" ++ toString n ++ "@uni.edu") 18))
       (seq 0 51))
    emptyStore.

(** [registered] after an update set the student's age to 10. *)
Definition underage : Store :=
  runAll [ UpdateStudent 0 (mkStudentInput None None (Some 10%Z) None) ] registered.

(** [campus] after the same update: the student is enrolled and aged 10. *)
Definition enrolledUnderage : Store :=
  runAll [ UpdateStudent 0 (mkStudentInput None None (Some 10%Z) None) ] campus.

(** [registered] after an update set the course's credits to 7. *)
Definition overloaded : Store :=
  runAll [ UpdateCourse 1 (mkCourseUpdateInput None None (Some 7%Z) None) ] registered.

(** A store whose two sides have drifted apart: course 1 lists student 0,
    whose own [courses] is empty. *)
Definition drifted : Store :=
  mkStore [Student.mk 0 "Ann" "ann@uni.edu" 20 "" []]
    [Course.mk 1 "Logic" "CS101" 3 "Turing" [0];
     Course.mk 2 "Sets" "CS102" 4 "Cantor" [0; 5]]
    6.

(** [campus] after a second enrollment of the same pair, the course id
    sent in upper case. *)
Definition reEnrolled : Store :=
  runAll [ EnrollStudent (hex 0) (upperHex 1) ] campus.

(** [campus] with a second student and a second course: Ann is enrolled
    in both courses, Bob in the second. *)
Definition faculty : Store :=
  runAll [ AddStudent (studentInput "Bob" "bob@uni.edu" 19);
           AddCourse (mkCourseInput "Sets" "CS102" 4 "Cantor");
           EnrollStudent (hex 0) (hex 3);
           EnrollStudent (hex 2) (hex 3) ] campus.

(** ** The relation between the two collections *)

(** Both sides of the enrollment relation agree: a student lists a course
    exactly when the course lists the student. *)
Definition consistent (st : Store) : Prop :=
  forall s c, In s (studentDocs st) -> In c (courseDocs st) ->
    (In (Course.id c) (Student.courses s) <-> In (Student.id s) (Course.students c)).

(** [after] is [before] without [i]: [i] is gone, and every other id is
    there exactly when it was, and as often. *)
Definition without (i : Id) (before after : list Id) : Prop :=
  ~ In i after
  /\ (forall j, j <> i -> (In j after <-> In j before))
  /\ (forall j, j <> i ->
        count_occ Nat.eq_dec after j = count_occ Nat.eq_dec before j).

(** Every id in the store, of a document or in a relation array, was
    handed out by the store. *)
Definition idsIssued (st : Store) : Prop :=
  (forall s, In s (studentDocs st) ->
     Student.id s < nextId st /\ forall j, In j (Student.courses s) -> j < nextId st)
  /\ (forall c, In c (courseDocs st) ->
     Course.id c < nextId st /\ forall j, In j (Course.students c) -> j < nextId st).

(** ** Field resolvers of the types [Student] and [Course]

    [courses] is [Course.find({ _id: { $in: parent.courses } })]: the
    stored courses whose id the parent lists, in collection order.
    [coursesCount] is [parent.courses?.length || 0]. *)

Definition Student_courses (parent : Student.t) (st : Store) : list Course.t :=
  List.filter (fun c => hasId (Course.id c) (Student.courses parent)) (courseDocs st).

Definition Student_coursesCount (parent : Student.t) : nat :=
  List.length (Student.courses parent).

Definition Course_students (parent : Course.t) (st : Store) : list Student.t :=
  List.filter (fun s => hasId (Student.id s) (Course.students parent)) (studentDocs st).

Definition Course_studentsCount (parent : Course.t) : nat :=
  List.length (Course.students parent).

(** ** The baseline resolvers

    The first variant of [src/index.js]: no caller identity, no filter, no
    pagination, and deletes that touch one collection only. *)
Module Baseline.

Definition getAllStudents (st : Store) : list Student.t := studentDocs st.

Definition getStudent (i : Id) (st : Store) : option Student.t :=
  findStudent i (studentDocs st).

Definition getAllCourses (st : Store) : list Course.t := courseDocs st.

Definition getCourse (i : Id) (st : Store) : option Course.t :=
  findCourse i (courseDocs st).

(** [Student.find({ major })] *)
Definition searchStudentsByMajor (major : string) (st : Store) : list Student.t :=
  List.filter (fun s => (Student.major s =? major)%string) (studentDocs st).

(** [!!(await Student.findByIdAndDelete(id))] *)
Definition deleteStudent (i : Id) (st : Store) : bool * Store :=
  match findStudent i (studentDocs st) with
  | None => (false, st)
  | Some student => (true, deleteStudentDoc (Student.id student) st)
  end.

Definition deleteCourse (i : Id) (st : Store) : bool * Store :=
  match findCourse i (courseDocs st) with
  | None => (false, st)
  | Some course => (true, deleteCourseDoc (Course.id course) st)
  end.

Definition enrollStudentInCourse (studentId courseId : ID) (st : Store)
  : Result Student.t * Store :=
  match findStudent (objectId studentId) (studentDocs st),
        findCourse (objectId courseId) (courseDocs st) with
  | Some foundStudent, Some foundCourse =>
      let foundStudent :=
        Student.setCourses (pushUnique courseId (Student.courses foundStudent))
          foundStudent in
      let foundCourse :=
        Course.setStudents (pushUnique studentId (Course.students foundCourse))
          foundCourse in
      match saveStudent foundStudent st with
      | (Err e, st) => (Err e, st)
      | (Ok _, st) =>
          match saveCourse foundCourse st with
          | (Err e, st) => (Err e, st)
          | (Ok _, st) => (Ok foundStudent, st)
          end
      end
  | _, _ => (Err InvalidIDs, st)
  end.

End Baseline.

(** ** A reference instance of the token and password primitives

    A toy digest and an unsigned token, enough to run signup and login on
    concrete inputs. *)

Fixpoint digest (s : string) (acc : nat) : nat :=
  match s with
  | EmptyString => acc
  | String c s' => digest s' ((31 * acc + nat_of_ascii c) mod 4093)
  end.

(** The part of [s] before the first [sep], and the part after it. *)
Fixpoint splitAt (sep : ascii) (s : string) : string * string :=
  match s with
  | EmptyString => (EmptyString, EmptyString)
  | String c s' =>
      if Ascii.eqb c sep then (EmptyString, s')
      else let (a, b) := splitAt sep s' in (String c a, b)
  end.

Definition refHash (password : string) (rounds : nat) (salt : string) : string :=
  salt ++ "$" ++ toString (digest (salt ++ password) rounds).

Definition refCompare (password hash : string) : bool :=
  let (salt, d) := splitAt "$" hash in
  (d =? toString (digest (salt ++ password) 10))%string.

Definition refSign (c : Claims) (now : nat) : string :=
  "jwt." ++ claim_id c ++ "|" ++ claim_email c.

Definition refVerify (tok : string) : option Claims :=
  if String.prefix "jwt." tok
  then let (i, e) := splitAt "|" (drop 4 tok) in Some (mkClaims i e)
  else None.

Definition refAuth : Auth := mkAuth lower refHash refCompare refSign refVerify.

(** ** The shape of a store *)

(** No two documents of a collection share an id. *)
Definition uniqueIds (st : Store) : Prop :=
  NoDup (map Student.id (studentDocs st)) /\ NoDup (map Course.id (courseDocs st)).

(** No relation array holds an id twice. *)
Definition noDuplicates (st : Store) : Prop :=
  (forall s, In s (studentDocs st) -> NoDup (Student.courses s))
  /\ (forall c, In c (courseDocs st) -> NoDup (Course.students c)).

(** Every id in a relation array is the id of a stored document. *)
Definition noDangling (st : Store) : Prop :=
  (forall s j, In s (studentDocs st) -> In j (Student.courses s) ->
     In j (map Course.id (courseDocs st)))
  /\ (forall c j, In c (courseDocs st) -> In j (Course.students c) ->
     In j (map Student.id (studentDocs st))).

(** No two students share an email, no two courses a code. *)
Definition uniqueKeys (st : Store) : Prop :=
  NoDup (map Student.email (studentDocs st)) /\ NoDup (map Course.code (courseDocs st)).

(** No two identities share an email up to letter case. *)
Definition distinctUsers (A : Auth) (users : list User.t) : Prop :=
  NoDup (map (fun u => toLowerCase A (User.email u)) users).

(** * Properties *)

(** ** Id arrays *)

Lemma hasId_In x l : hasId x l = true <-> In x l.
Proof.
  unfold hasId. rewrite existsb_exists. split.
  - intros [y [Hy e]]. apply Nat.eqb_eq in e. now subst.
  - intros H. exists x. split; [assumption | apply Nat.eqb_refl].
Qed.

Lemma arrayIncludes_In x l : arrayIncludes x l = true -> In (objectId x) l.
Proof.
  unfold arrayIncludes. intros H. apply andb_true_iff in H. now apply hasId_In.
Qed.

Lemma arrayIncludes_printed x l :
  lowerHex x = true -> (arrayIncludes x l = true <-> In (objectId x) l).
Proof.
  intros H. unfold arrayIncludes. rewrite H. simpl. apply hasId_In.
Qed.

Lemma In_pushUnique y x l : In y (pushUnique x l) <-> y = objectId x \/ In y l.
Proof.
  unfold pushUnique. destruct (arrayIncludes x l) eqn:e.
  - apply arrayIncludes_In in e. split; [tauto | intros [->|H]; assumption].
  - rewrite in_app_iff. simpl. split; intros H; intuition congruence.
Qed.

Lemma pushUnique_present x l :
  lowerHex x = true -> In (objectId x) l -> pushUnique x l = l.
Proof.
  intros Hx H. unfold pushUnique. apply (arrayIncludes_printed x l Hx) in H. now rewrite H.
Qed.

Lemma In_pull y x l : In y (pull x l) <-> In y l /\ y <> x.
Proof.
  unfold pull. rewrite filter_In, negb_true_iff, Nat.eqb_neq. tauto.
Qed.

Lemma pull_absent x l : ~ In x l -> pull x l = l.
Proof.
  induction l as [|y l IH]; simpl; intros H; [reflexivity|].
  destruct (Nat.eqb_spec y x) as [->|ne]; simpl.
  - exfalso. apply H. now left.
  - f_equal. apply IH. intros H'. apply H. now right.
Qed.

Lemma setCourses_same s : Student.setCourses (Student.courses s) s = s.
Proof. now destruct s. Qed.

Lemma setStudents_same c : Course.setStudents (Course.students c) c = c.
Proof. now destruct c. Qed.

(** ** Retrieval and write-back *)

Lemma findStudent_some i l s :
  findStudent i l = Some s -> In s l /\ Student.id s = i.
Proof.
  unfold findStudent. intros H. apply find_some in H.
  destruct H as [H e]. now apply Nat.eqb_eq in e.
Qed.

Lemma findCourse_some i l c :
  findCourse i l = Some c -> In c l /\ Course.id c = i.
Proof.
  unfold findCourse. intros H. apply find_some in H.
  destruct H as [H e]. now apply Nat.eqb_eq in e.
Qed.

(** What was written back is what the next [findById] returns. *)
Lemma findStudent_saved i s s' st :
  findStudent i (studentDocs st) = Some s -> Student.id s' = i ->
  findStudent i (studentDocs (writeStudent s' st)) = Some s'.
Proof.
  unfold findStudent, writeStudent. simpl. intros H e. subst i.
  induction (studentDocs st) as [|d l IH]; simpl in *; [discriminate|].
  destruct (Student.id d =? Student.id s') eqn:ed.
  - simpl. now rewrite Nat.eqb_refl.
  - simpl. rewrite ed. now apply IH.
Qed.

Lemma findCourse_saved i c c' st :
  findCourse i (courseDocs st) = Some c -> Course.id c' = i ->
  findCourse i (courseDocs (writeCourse c' st)) = Some c'.
Proof.
  unfold findCourse, writeCourse. simpl. intros H e. subst i.
  induction (courseDocs st) as [|d l IH]; simpl in *; [discriminate|].
  destruct (Course.id d =? Course.id c') eqn:ed.
  - simpl. now rewrite Nat.eqb_refl.
  - simpl. rewrite ed. now apply IH.
Qed.

Lemma writeStudent_twice s st : writeStudent s (writeStudent s st) = writeStudent s st.
Proof.
  unfold writeStudent. simpl. f_equal. rewrite map_map. apply map_ext.
  intros d. destruct (Student.id d =? Student.id s) eqn:e.
  - now rewrite Nat.eqb_refl.
  - now rewrite e.
Qed.

Lemma writeCourse_twice c st : writeCourse c (writeCourse c st) = writeCourse c st.
Proof.
  unfold writeCourse. simpl. f_equal. rewrite map_map. apply map_ext.
  intros d. destruct (Course.id d =? Course.id c) eqn:e.
  - now rewrite Nat.eqb_refl.
  - now rewrite e.
Qed.

Lemma writeCourse_writeStudent c s st :
  writeCourse c (writeStudent s st) = writeStudent s (writeCourse c st).
Proof. reflexivity. Qed.

Lemma In_writeStudent x s st :
  In x (studentDocs (writeStudent s st)) ->
  (x = s /\ exists d, In d (studentDocs st) /\ Student.id d = Student.id s)
  \/ (In x (studentDocs st) /\ Student.id x <> Student.id s).
Proof.
  unfold writeStudent. simpl. rewrite in_map_iff. intros [d [e Hd]].
  destruct (Nat.eqb_spec (Student.id d) (Student.id s)) as [ei|ne].
  - left. split; [now symmetry | now exists d].
  - right. subst x. now split.
Qed.

Lemma In_writeCourse x c st :
  In x (courseDocs (writeCourse c st)) ->
  (x = c /\ exists d, In d (courseDocs st) /\ Course.id d = Course.id c)
  \/ (In x (courseDocs st) /\ Course.id x <> Course.id c).
Proof.
  unfold writeCourse. simpl. rewrite in_map_iff. intros [d [e Hd]].
  destruct (Nat.eqb_spec (Course.id d) (Course.id c)) as [ei|ne].
  - left. split; [now symmetry | now exists d].
  - right. subst x. now split.
Qed.

(** ** Enrollment *)

Lemma validStudent_setCourses cs s :
  validStudent (Student.setCourses cs s) = validStudent s.
Proof. reflexivity. Qed.

Lemma validCourse_setStudents ss c :
  validCourse (Course.setStudents ss c) = validCourse c.
Proof. reflexivity. Qed.

Lemma enrollStudent_found u sid cid st s c :
  findStudent (objectId sid) (studentDocs st) = Some s ->
  findCourse (objectId cid) (courseDocs st) = Some c ->
  enrollStudent (Some u) sid cid st =
    saveBoth (Student.setCourses (pushUnique cid (Student.courses s)) s)
             (Course.setStudents (pushUnique sid (Course.students c)) c) st.
Proof.
  intros Hs Hc. unfold enrollStudent, saveBoth, saveStudent, saveCourse.
  rewrite Hs, Hc.
  destruct (validStudent _); [|reflexivity]. now destruct (validCourse _).
Qed.

Lemma enrollStudent_missing u sid cid st :
  findStudent (objectId sid) (studentDocs st) = None
  \/ findCourse (objectId cid) (courseDocs st) = None ->
  enrollStudent (Some u) sid cid st = (Err InvalidIDs, st).
Proof.
  intros [H|H]; unfold enrollStudent; rewrite H; [reflexivity|].
  now destruct (findStudent (objectId sid) (studentDocs st)).
Qed.

Lemma unenrollStudent_found u sid cid st s c :
  findStudent sid (studentDocs st) = Some s ->
  findCourse cid (courseDocs st) = Some c ->
  unenrollStudent (Some u) sid cid st =
    saveBoth (Student.setCourses (pull cid (Student.courses s)) s)
             (Course.setStudents (pull sid (Course.students c)) c) st.
Proof.
  intros Hs Hc. unfold unenrollStudent, saveBoth, saveStudent, saveCourse.
  rewrite Hs, Hc.
  destruct (validStudent _); [|reflexivity]. now destruct (validCourse _).
Qed.

Lemma unenrollStudent_missing u sid cid st :
  findStudent sid (studentDocs st) = None \/ findCourse cid (courseDocs st) = None ->
  unenrollStudent (Some u) sid cid st = (Err InvalidIDs, st).
Proof.
  intros [H|H]; unfold unenrollStudent; rewrite H; [reflexivity|].
  now destruct (findStudent sid (studentDocs st)).
Qed.

(** C3, as the code has it.  [enrollStudent], called with a caller
    identity, fails with the not-found error ("Invalid IDs") and leaves
    the store alone when either id does not resolve.  When both resolve
    and both stored documents pass the validators of their schemas, which
    [save] runs, it returns the student with [courseId] in its courses,
    and a read of both documents right after it finds that student and a
    course with [studentId] among its students. *)
Theorem enrollStudent_pairs_both_sides u sid cid st :
  (findStudent (objectId sid) (studentDocs st) = None
   \/ findCourse (objectId cid) (courseDocs st) = None ->
   enrollStudent (Some u) sid cid st = (Err InvalidIDs, st))
  /\ (forall s c,
        findStudent (objectId sid) (studentDocs st) = Some s ->
        findCourse (objectId cid) (courseDocs st) = Some c ->
        validStudent s = true -> validCourse c = true ->
        exists s' c' st',
          enrollStudent (Some u) sid cid st = (Ok s', st')
          /\ s' = Student.setCourses (pushUnique cid (Student.courses s)) s
          /\ c' = Course.setStudents (pushUnique sid (Course.students c)) c
          /\ findStudent (objectId sid) (studentDocs st') = Some s'
          /\ findCourse (objectId cid) (courseDocs st') = Some c'
          /\ In (objectId cid) (Student.courses s')
          /\ In (objectId sid) (Course.students c')).
Proof.
  split; [apply enrollStudent_missing|].
  intros s c Hs Hc Vs Vc.
  destruct (findStudent_some _ _ _ Hs) as [_ es].
  destruct (findCourse_some _ _ _ Hc) as [_ ec].
  eexists _, _, _. split.
  { rewrite (enrollStudent_found u _ _ _ _ _ Hs Hc). unfold saveBoth.
    rewrite validStudent_setCourses, validCourse_setStudents, Vs, Vc. reflexivity. }
  repeat split.
  - apply findStudent_saved with (s:=s); [exact Hs | exact es].
  - rewrite writeCourse_writeStudent.
    apply findCourse_saved with (c:=c); [exact Hc | exact ec].
  - simpl. apply In_pushUnique. now left.
  - simpl. apply In_pushUnique. now left.
Qed.

(** C3, as stated, fails: in [underage] both ids resolve, and the call is
    refused by the validator of the student's age; nothing is paired. *)
Lemma enrollStudent_refused_on_invalid_document :
  findStudent 0 (studentDocs underage)
    = Some (Student.mk 0 "Ann" "ann@uni.edu" 10 "" [])
  /\ findCourse 1 (courseDocs underage)
     = Some (Course.mk 1 "Logic" "CS101" 3 "Turing" [])
  /\ enrollStudent (Some alice) (hex 0) (hex 1) underage = (Err ValidationError, underage)
  /\ ~ (exists s' st',
          enrollStudent (Some alice) (hex 0) (hex 1) underage = (Ok s', st')).
Proof.
  repeat split. intros (s' & st' & H). discriminate H.
Qed.

Lemma saveBoth_twice s c st :
  saveBoth s c (snd (saveBoth s c st)) = saveBoth s c st.
Proof.
  unfold saveBoth. destruct (validStudent s); [|reflexivity].
  destruct (validCourse c); simpl.
  - f_equal. rewrite (writeCourse_writeStudent c s (writeCourse c (writeStudent s st))).
    rewrite writeCourse_twice, <- writeCourse_writeStudent.
    now rewrite writeStudent_twice.
  - now rewrite writeStudent_twice.
Qed.

(** What [findById] returns after [saveBoth], whichever way it went. *)
Lemma findStudent_saveBoth i s0 s c st :
  findStudent i (studentDocs st) = Some s0 -> Student.id s = i ->
  findStudent i (studentDocs (snd (saveBoth s c st)))
    = Some (if validStudent s then s else s0).
Proof.
  intros H e. unfold saveBoth.
  destruct (validStudent s); [|exact H].
  destruct (validCourse c); exact (findStudent_saved i s0 s st H e).
Qed.

Lemma findCourse_saveBoth i c0 s c st :
  findCourse i (courseDocs st) = Some c0 -> Course.id c = i ->
  findCourse i (courseDocs (snd (saveBoth s c st)))
    = Some (if validStudent s && validCourse c then c else c0).
Proof.
  intros H e. unfold saveBoth.
  destruct (validStudent s); [|exact H].
  destruct (validCourse c); [|exact H].
  exact (findCourse_saved i c0 c st H e).
Qed.

(** X27. Sent as the server prints them, the ids make [enrollStudent]
    idempotent: a second call with the same ids yields the result and the
    store of the first.  When the student and the course resolve and the
    pairing is already there on both sides, a read of both documents
    after the call finds them as they were: nothing is inserted a second
    time. *)
Theorem enrollStudent_idempotent user sid cid st :
  lowerHex sid = true -> lowerHex cid = true ->
  enrollStudent user sid cid (snd (enrollStudent user sid cid st))
    = enrollStudent user sid cid st
  /\ (forall s c,
        findStudent (objectId sid) (studentDocs st) = Some s ->
        findCourse (objectId cid) (courseDocs st) = Some c ->
        In (objectId cid) (Student.courses s) -> In (objectId sid) (Course.students c) ->
        findStudent (objectId sid) (studentDocs (snd (enrollStudent user sid cid st)))
          = Some s
        /\ findCourse (objectId cid) (courseDocs (snd (enrollStudent user sid cid st)))
           = Some c).
Proof.
  intros Ps Pc. split.
  - destruct user as [u|]; [|reflexivity].
    destruct (findStudent (objectId sid) (studentDocs st)) as [s|] eqn:Hs.
    + destruct (findCourse (objectId cid) (courseDocs st)) as [c|] eqn:Hc.
      * destruct (findStudent_some _ _ _ Hs) as [_ es].
        destruct (findCourse_some _ _ _ Hc) as [_ ec].
        rewrite (enrollStudent_found u _ _ _ _ _ Hs Hc).
        set (s' := Student.setCourses (pushUnique cid (Student.courses s)) s).
        set (c' := Course.setStudents (pushUnique sid (Course.students c)) c).
        pose proof (findStudent_saveBoth (objectId sid) s s' c' st Hs es) as Hs'.
        pose proof (findCourse_saveBoth (objectId cid) c s' c' st Hc ec) as Hc'.
        rewrite (enrollStudent_found u _ _ _ _ _ Hs' Hc').
        assert (Es : Student.setCourses
                       (pushUnique cid (Student.courses (if validStudent s' then s' else s)))
                       (if validStudent s' then s' else s) = s').
        { destruct (validStudent s'); [|reflexivity].
          rewrite (pushUnique_present cid _ Pc) by (apply In_pushUnique; now left).
          apply setCourses_same. }
        assert (Ec : Course.setStudents
                       (pushUnique sid
                          (Course.students (if validStudent s' && validCourse c' then c' else c)))
                       (if validStudent s' && validCourse c' then c' else c) = c').
        { destruct (validStudent s' && validCourse c'); [|reflexivity].
          rewrite (pushUnique_present sid _ Ps) by (apply In_pushUnique; now left).
          apply setStudents_same. }
        rewrite Es, Ec. apply saveBoth_twice.
      * rewrite (enrollStudent_missing u sid cid st) by now right.
        simpl snd. apply enrollStudent_missing. now right.
    + rewrite (enrollStudent_missing u sid cid st) by now left.
      simpl snd. apply enrollStudent_missing. now left.
  - intros s c Hs Hc Is Ic.
    destruct user as [u|]; [|now split].
    destruct (findStudent_some _ _ _ Hs) as [_ es].
    destruct (findCourse_some _ _ _ Hc) as [_ ec].
    rewrite (enrollStudent_found u _ _ _ _ _ Hs Hc).
    rewrite (pushUnique_present _ _ Pc Is), (pushUnique_present _ _ Ps Ic).
    rewrite setCourses_same, setStudents_same. split.
    + rewrite (findStudent_saveBoth (objectId sid) s s c st Hs es).
      now destruct (validStudent s).
    + rewrite (findCourse_saveBoth (objectId cid) c s c st Hc ec).
      now destruct (validStudent s && validCourse c).
Qed.

(** C4, at the input where the code leaves it.  [includes] is handed the
    id as the client sent it and compares it with the printed form of
    each listed ObjectId, while [findById] and [push] cast it.  With the
    course id sent in upper case both calls resolve the same student and
    course, the first call pairs them, and the second call does not find
    the id it is about to push: the student lists the course twice, and
    the store after two calls is not the store after one. *)
Theorem enrollStudent_upper_case_id_pushed_again :
  findStudent 0 (studentDocs (snd (enrollStudent (Some alice) (hex 0) (upperHex 1) registered)))
    = Some (Student.mk 0 "Ann" "ann@uni.edu" 20 "" [1])
  /\ findStudent 0
       (studentDocs
          (snd (enrollStudent (Some alice) (hex 0) (upperHex 1)
                  (snd (enrollStudent (Some alice) (hex 0) (upperHex 1) registered)))))
     = Some (Student.mk 0 "Ann" "ann@uni.edu" 20 "" [1; 1])
  /\ snd (enrollStudent (Some alice) (hex 0) (upperHex 1)
            (snd (enrollStudent (Some alice) (hex 0) (upperHex 1) registered)))
     <> snd (enrollStudent (Some alice) (hex 0) (upperHex 1) registered)
  /\ fst (enrollStudent (Some alice) (hex 0) (upperHex 1)
            (snd (enrollStudent (Some alice) (hex 0) (upperHex 1) registered)))
     = Ok (Student.mk 0 "Ann" "ann@uni.edu" 20 "" [1; 1]).
Proof.
  split; [reflexivity|]. split; [reflexivity|]. split; [|reflexivity].
  intros H. apply (f_equal (fun st => findStudent 0 (studentDocs st))) in H.
  discriminate H.
Qed.

(** C5, as the code has it.  [unenrollStudent], called with a caller
    identity, fails with the not-found error and leaves the store alone
    when either id does not resolve.  When both resolve and both stored
    documents pass the validators of their schemas, it returns the
    student without [courseId], and a read right after it finds that
    student and the course without [studentId]; a side that did not hold
    the pairing keeps its document as it was, and the call still
    succeeds. *)
Theorem unenrollStudent_unpairs_both_sides u sid cid st :
  (findStudent sid (studentDocs st) = None \/ findCourse cid (courseDocs st) = None ->
   unenrollStudent (Some u) sid cid st = (Err InvalidIDs, st))
  /\ (forall s c,
        findStudent sid (studentDocs st) = Some s ->
        findCourse cid (courseDocs st) = Some c ->
        validStudent s = true -> validCourse c = true ->
        exists s' c' st',
          unenrollStudent (Some u) sid cid st = (Ok s', st')
          /\ s' = Student.setCourses (pull cid (Student.courses s)) s
          /\ c' = Course.setStudents (pull sid (Course.students c)) c
          /\ findStudent sid (studentDocs st') = Some s'
          /\ findCourse cid (courseDocs st') = Some c'
          /\ ~ In cid (Student.courses s')
          /\ ~ In sid (Course.students c')
          /\ (~ In cid (Student.courses s) -> s' = s)
          /\ (~ In sid (Course.students c) -> c' = c)).
Proof.
  split; [apply unenrollStudent_missing|].
  intros s c Hs Hc Vs Vc.
  destruct (findStudent_some _ _ _ Hs) as [_ es].
  destruct (findCourse_some _ _ _ Hc) as [_ ec].
  eexists _, _, _. split.
  { rewrite (unenrollStudent_found u _ _ _ _ _ Hs Hc). unfold saveBoth.
    rewrite validStudent_setCourses, validCourse_setStudents, Vs, Vc. reflexivity. }
  split; [reflexivity|]. split; [reflexivity|].
  split; [apply findStudent_saved with (s:=s); [exact Hs | exact es]|].
  split.
  { rewrite writeCourse_writeStudent.
    apply findCourse_saved with (c:=c); [exact Hc | exact ec]. }
  split; [simpl; rewrite In_pull; tauto|].
  split; [simpl; rewrite In_pull; tauto|].
  split; intros H; rewrite (pull_absent _ _ H).
  - apply setCourses_same.
  - apply setStudents_same.
Qed.

(** C5, as stated, fails: in [enrolledUnderage] both ids resolve and the
    pair is enrolled, and the call is refused by the validator of the
    student's age; the pairing stays on both sides. *)
Lemma unenrollStudent_refused_on_invalid_document :
  findStudent 0 (studentDocs enrolledUnderage)
    = Some (Student.mk 0 "Ann" "ann@uni.edu" 10 "" [1])
  /\ findCourse 1 (courseDocs enrolledUnderage)
     = Some (Course.mk 1 "Logic" "CS101" 3 "Turing" [0])
  /\ unenrollStudent (Some alice) 0 1 enrolledUnderage
     = (Err ValidationError, enrolledUnderage)
  /\ ~ (exists s' st', unenrollStudent (Some alice) 0 1 enrolledUnderage = (Ok s', st')).
Proof.
  repeat split. intros (s' & st' & H). discriminate H.
Qed.

(** X3. A refused second write leaves the first in place: in [overloaded] the
    student passes validation and is written with the course, the course
    does not and is not written, and the two sides disagree. *)
Lemma enrollStudent_half_written :
  exists st',
    enrollStudent (Some alice) (hex 0) (hex 1) overloaded = (Err ValidationError, st')
    /\ findStudent 0 (studentDocs st') = Some (Student.mk 0 "Ann" "ann@uni.edu" 20 "" [1])
    /\ findCourse 1 (courseDocs st') = Some (Course.mk 1 "Logic" "CS101" 7 "Turing" [])
    /\ ~ consistent st'.
Proof.
  eexists. split; [reflexivity|]. split; [reflexivity|]. split; [reflexivity|].
  intros H.
  specialize (H (Student.mk 0 "Ann" "ann@uni.edu" 20 "" [1])
                (Course.mk 1 "Logic" "CS101" 7 "Turing" [])
                (or_introl eq_refl) (or_introl eq_refl)).
  simpl in H. destruct H as [H _]. destruct (H (or_introl eq_refl)).
Qed.

(** ** The access gate *)

(** C6. Each of the eight guarded mutations, called without a caller
    identity, fails with UNAUTHENTICATED and returns the store it was
    given, whatever that store holds: it neither reads nor writes it.  A
    request without an Authorization header has no caller identity, and
    neither has one whose token does not verify. *)
Theorem unauthenticated_mutation_rejected :
  (forall E m st, execute E None m st = (Err UNAUTHENTICATED, st))
  /\ (forall A, context A None = None)
  /\ (forall A h, jwtVerify A (replace "Bearer " "" h) = None ->
                  context A (Some h) = None).
Proof.
  split; [|split].
  - intros E m st. destruct m; reflexivity.
  - reflexivity.
  - intros A h H. unfold context, getUserFromToken. simpl.
    destruct (h =? "")%string; [reflexivity | exact H].
Qed.

(** ** Cascading delete *)

Lemma findStudent_deleted i l :
  findStudent i (filter (fun s => negb (Student.id s =? i)) l) = None.
Proof.
  unfold findStudent. induction l as [|d l IH]; simpl; [reflexivity|].
  destruct (Student.id d =? i) eqn:e; simpl; [assumption|].
  now rewrite e.
Qed.

Lemma findCourse_deleted i l :
  findCourse i (filter (fun c => negb (Course.id c =? i)) l) = None.
Proof.
  unfold findCourse. induction l as [|d l IH]; simpl; [reflexivity|].
  destruct (Course.id d =? i) eqn:e; simpl; [assumption|].
  now rewrite e.
Qed.

Lemma pull_without i l : without i l (pull i l).
Proof.
  split; [|split].
  - rewrite In_pull. tauto.
  - intros j ne. rewrite In_pull. tauto.
  - intros j ne. unfold pull. induction l as [|y l IH]; simpl; [reflexivity|].
    destruct (Nat.eqb_spec y i) as [->|ny]; simpl.
    + destruct (Nat.eq_dec i j); [congruence | exact IH].
    + destruct (Nat.eq_dec y j); [now rewrite IH | exact IH].
Qed.

Lemma pullStudentEverywhere_each i l :
  Forall2 (fun c c' => c' = Course.setStudents (Course.students c') c
                       /\ without i (Course.students c) (Course.students c'))
    l (map (fun c => Course.setStudents (pull i (Course.students c)) c) l).
Proof.
  induction l as [|c l IH]; simpl; constructor; [|exact IH].
  split; [reflexivity | apply pull_without].
Qed.

Lemma pullCourseEverywhere_each i l :
  Forall2 (fun s s' => s' = Student.setCourses (Student.courses s') s
                       /\ without i (Student.courses s) (Student.courses s'))
    l (map (fun s => Student.setCourses (pull i (Student.courses s)) s) l).
Proof.
  induction l as [|s l IH]; simpl; constructor; [|exact IH].
  split; [reflexivity | apply pull_without].
Qed.

(** C7. Deleting an existing student succeeds, removes the document, and
    rewrites every course of the collection without the id in its
    students, whether or not the student's own courses listed that course:
    course by course, in collection order, the course after the delete is
    the course before it with a students array from which the id is gone
    and in which every other id is there exactly when it was, and as
    often.  Deleting a course does the same to every student. *)
Theorem delete_cascades_over_whole_collection u i st :
  (forall s, findStudent i (studentDocs st) = Some s ->
     exists st',
       deleteStudent (Some u) i st = (Ok true, st')
       /\ findStudent i (studentDocs st') = None
       /\ courseDocs st'
            = map (fun c => Course.setStudents (pull i (Course.students c)) c)
                (courseDocs st)
       /\ (forall c, In c (courseDocs st') -> ~ In i (Course.students c))
       /\ Forall2 (fun c c' => c' = Course.setStudents (Course.students c') c
                               /\ without i (Course.students c) (Course.students c'))
            (courseDocs st) (courseDocs st'))
  /\ (forall c, findCourse i (courseDocs st) = Some c ->
     exists st',
       deleteCourse (Some u) i st = (Ok true, st')
       /\ findCourse i (courseDocs st') = None
       /\ studentDocs st'
            = map (fun s => Student.setCourses (pull i (Student.courses s)) s)
                (studentDocs st)
       /\ (forall s, In s (studentDocs st') -> ~ In i (Student.courses s))
       /\ Forall2 (fun s s' => s' = Student.setCourses (Student.courses s') s
                               /\ without i (Student.courses s) (Student.courses s'))
            (studentDocs st) (studentDocs st')).
Proof.
  split.
  - intros s Hs. destruct (findStudent_some _ _ _ Hs) as [_ es].
    unfold deleteStudent. rewrite Hs, es. eexists. split; [reflexivity|].
    simpl. split; [apply findStudent_deleted|]. split; [reflexivity|].
    split; [|apply pullStudentEverywhere_each].
    intros c Hc. apply in_map_iff in Hc. destruct Hc as [c0 [<- _]].
    simpl. rewrite In_pull. tauto.
  - intros c Hc. destruct (findCourse_some _ _ _ Hc) as [_ ec].
    unfold deleteCourse. rewrite Hc, ec. eexists. split; [reflexivity|].
    simpl. split; [apply findCourse_deleted|]. split; [reflexivity|].
    split; [|apply pullCourseEverywhere_each].
    intros s Hs. apply in_map_iff in Hs. destruct Hs as [s0 [<- _]].
    simpl. rewrite In_pull. tauto.
Qed.

(** ** The bidirectional invariant *)

(** *** Ids in the store were handed out by the store *)

Lemma idsIssued_empty : idsIssued emptyStore.
Proof. split; intros ? []. Qed.

Lemma idsIssued_writeStudent st s s' :
  idsIssued st -> In s (studentDocs st) -> Student.id s' = Student.id s ->
  (forall j, In j (Student.courses s') -> j < nextId st) ->
  idsIssued (writeStudent s' st).
Proof.
  intros [Is Ic] Hs ei Hb. split; [|exact Ic].
  intros x Hx. apply In_writeStudent in Hx. destruct Hx as [[-> _]|[Hx _]].
  - split; [rewrite ei; exact (proj1 (Is s Hs)) | exact Hb].
  - exact (Is x Hx).
Qed.

Lemma idsIssued_writeCourse st c c' :
  idsIssued st -> In c (courseDocs st) -> Course.id c' = Course.id c ->
  (forall j, In j (Course.students c') -> j < nextId st) ->
  idsIssued (writeCourse c' st).
Proof.
  intros [Is Ic] Hc ei Hb. split; [exact Is|].
  intros y Hy. apply In_writeCourse in Hy. destruct Hy as [[-> _]|[Hy _]].
  - split; [rewrite ei; exact (proj1 (Ic c Hc)) | exact Hb].
  - exact (Ic y Hy).
Qed.

Lemma newStudent_fresh i input s :
  newStudent i input = Some s -> Student.id s = i /\ Student.courses s = [].
Proof.
  unfold newStudent.
  destruct (in_name input), (in_email input), (in_age input); try discriminate.
  destruct (validStudent _); [|discriminate]. intros [= <-]. now split.
Qed.

Lemma newCourse_fresh i input c :
  newCourse i input = Some c -> Course.id c = i /\ Course.students c = [].
Proof.
  unfold newCourse. destruct (validCourse _); [|discriminate].
  intros [= <-]. now split.
Qed.

(** What [insertStudent] does to the store: nothing, or one new document
    under the next id, with no courses. *)
Lemma insertStudent_store input st :
  snd (insertStudent input st) = st
  \/ exists s, Student.id s = nextId st /\ Student.courses s = []
               /\ snd (insertStudent input st)
                  = mkStore (studentDocs st ++ [s]) (courseDocs st) (S (nextId st)).
Proof.
  unfold insertStudent.
  destruct (newStudent (nextId st) input) as [s|] eqn:e; [|now left].
  destruct (existsb _ _); [now left|]. right. exists s.
  destruct (newStudent_fresh _ _ _ e). now repeat split.
Qed.

Lemma insertCourse_store input st :
  snd (insertCourse input st) = st
  \/ exists c, Course.id c = nextId st /\ Course.students c = []
               /\ snd (insertCourse input st)
                  = mkStore (studentDocs st) (courseDocs st ++ [c]) (S (nextId st)).
Proof.
  unfold insertCourse.
  destruct (newCourse (nextId st) input) as [c|] eqn:e; [|now left].
  destruct (existsb _ _); [now left|]. right. exists c.
  destruct (newCourse_fresh _ _ _ e). now repeat split.
Qed.

Lemma idsIssued_later st :
  idsIssued st ->
  (forall s, In s (studentDocs st) ->
     Student.id s < S (nextId st) /\ forall j, In j (Student.courses s) -> j < S (nextId st))
  /\ (forall c, In c (courseDocs st) ->
     Course.id c < S (nextId st) /\ forall j, In j (Course.students c) -> j < S (nextId st)).
Proof.
  intros [Is Ic]. split.
  - intros s Hs. destruct (Is s Hs) as [a b]. split; [lia|].
    intros j Hj. specialize (b j Hj). lia.
  - intros c Hc. destruct (Ic c Hc) as [a b]. split; [lia|].
    intros j Hj. specialize (b j Hj). lia.
Qed.

Lemma idsIssued_insertStudent input st :
  idsIssued st -> idsIssued (snd (insertStudent input st)).
Proof.
  intros H. destruct (insertStudent_store input st) as [->|(s & ei & ec & ->)]; [exact H|].
  destruct (idsIssued_later st H) as [Is Ic]. split; simpl; [|exact Ic].
  intros x Hx. apply in_app_iff in Hx. destruct Hx as [Hx|[<-|[]]]; [exact (Is x Hx)|].
  rewrite ei, ec. split; [lia | intros j []].
Qed.

Lemma idsIssued_insertCourse input st :
  idsIssued st -> idsIssued (snd (insertCourse input st)).
Proof.
  intros H. destruct (insertCourse_store input st) as [->|(c & ei & ec & ->)]; [exact H|].
  destruct (idsIssued_later st H) as [Is Ic]. split; simpl; [exact Is|].
  intros y Hy. apply in_app_iff in Hy. destruct Hy as [Hy|[<-|[]]]; [exact (Ic y Hy)|].
  rewrite ei, ec. split; [lia | intros j []].
Qed.

Lemma idsIssued_deleteStudent i st :
  idsIssued st -> idsIssued (deleteStudentDoc i (pullStudentEverywhere i st)).
Proof.
  intros [Is Ic]. split; simpl.
  - intros x Hx. apply filter_In in Hx. exact (Is x (proj1 Hx)).
  - intros y Hy. apply in_map_iff in Hy. destruct Hy as [y0 [<- Hy]]. simpl.
    split; [exact (proj1 (Ic y0 Hy))|].
    intros j Hj. apply In_pull in Hj. exact (proj2 (Ic y0 Hy) j (proj1 Hj)).
Qed.

Lemma idsIssued_deleteCourse i st :
  idsIssued st -> idsIssued (deleteCourseDoc i (pullCourseEverywhere i st)).
Proof.
  intros [Is Ic]. split; simpl.
  - intros x Hx. apply in_map_iff in Hx. destruct Hx as [x0 [<- Hx]]. simpl.
    split; [exact (proj1 (Is x0 Hx))|].
    intros j Hj. apply In_pull in Hj. exact (proj2 (Is x0 Hx) j (proj1 Hj)).
  - intros y Hy. apply filter_In in Hy. exact (Ic y (proj1 Hy)).
Qed.

(** Writing the student, then perhaps the course, each with its old id and
    with issued ids in its array. *)
Lemma idsIssued_saveBoth st s c cs' ss' :
  idsIssued st -> In s (studentDocs st) -> In c (courseDocs st) ->
  (forall j, In j cs' -> j < nextId st) ->
  (forall j, In j ss' -> j < nextId st) ->
  idsIssued (snd (saveBoth (Student.setCourses cs' s) (Course.setStudents ss' c) st)).
Proof.
  intros H Hs Hc Hbs Hbc. unfold saveBoth.
  destruct (validStudent _); [|exact H].
  assert (H1 : idsIssued (writeStudent (Student.setCourses cs' s) st))
    by (apply idsIssued_writeStudent with (s:=s); auto).
  destruct (validCourse _); [|exact H1]. simpl.
  apply idsIssued_writeCourse with (c:=c); auto.
Qed.

(** *** Both sides agree *)

Lemma consistent_empty : consistent emptyStore.
Proof. intros s c []. Qed.

(** Rewriting one student's courses and one course's students, when the
    two new arrays agree on the pair and leave every other id as it was. *)
Lemma consistent_relink st s c cs' ss' :
  consistent st ->
  In s (studentDocs st) -> In c (courseDocs st) ->
  (forall j, j <> Course.id c -> (In j cs' <-> In j (Student.courses s))) ->
  (forall j, j <> Student.id s -> (In j ss' <-> In j (Course.students c))) ->
  (In (Course.id c) cs' <-> In (Student.id s) ss') ->
  consistent (writeCourse (Course.setStudents ss' c) (writeStudent (Student.setCourses cs' s) st)).
Proof.
  intros Hcons Hs Hc Hcs Hss Hpair x y Hx Hy.
  rewrite writeCourse_writeStudent in Hy.
  apply In_writeStudent in Hx. apply In_writeCourse in Hy. simpl in Hx, Hy.
  destruct Hx as [[-> _]|[Hx nx]]; destruct Hy as [[-> _]|[Hy ny]]; simpl.
  - exact Hpair.
  - rewrite (Hcs _ ny). apply (Hcons s y Hs Hy).
  - rewrite (Hss _ nx). apply (Hcons x c Hx Hc).
  - apply (Hcons x y Hx Hy).
Qed.

(** Writing a document back with its id and its relation array untouched. *)
Lemma consistent_writeStudent st s s' :
  consistent st -> In s (studentDocs st) ->
  Student.id s' = Student.id s -> Student.courses s' = Student.courses s ->
  consistent (writeStudent s' st).
Proof.
  intros Hcons Hs ei ec x y Hx Hy. apply In_writeStudent in Hx. simpl in Hy.
  destruct Hx as [[-> _]|[Hx _]]; [rewrite ei, ec|]; auto.
Qed.

Lemma consistent_writeCourse st c c' :
  consistent st -> In c (courseDocs st) ->
  Course.id c' = Course.id c -> Course.students c' = Course.students c ->
  consistent (writeCourse c' st).
Proof.
  intros Hcons Hc ei ec x y Hx Hy. apply In_writeCourse in Hy. simpl in Hx.
  destruct Hy as [[-> _]|[Hy _]]; [rewrite ei, ec|]; auto.
Qed.

(** A new document has a fresh id, which no array holds yet. *)
Lemma consistent_insertStudent input st :
  idsIssued st -> consistent st -> consistent (snd (insertStudent input st)).
Proof.
  intros [Is Ic] H.
  destruct (insertStudent_store input st) as [->|(s & ei & ec & ->)]; [exact H|].
  intros x y Hx Hy. simpl in Hx, Hy.
  apply in_app_iff in Hx. destruct Hx as [Hx|[<-|[]]]; [now apply H|].
  rewrite ei, ec. split; [intros []|].
  intros Hj. destruct (Ic y Hy) as [_ b]. specialize (b _ Hj). lia.
Qed.

Lemma consistent_insertCourse input st :
  idsIssued st -> consistent st -> consistent (snd (insertCourse input st)).
Proof.
  intros [Is Ic] H.
  destruct (insertCourse_store input st) as [->|(c & ei & ec & ->)]; [exact H|].
  intros x y Hx Hy. simpl in Hx, Hy.
  apply in_app_iff in Hy. destruct Hy as [Hy|[<-|[]]]; [now apply H|].
  rewrite ei, ec. split; [|intros []].
  intros Hj. destruct (Is x Hx) as [_ b]. specialize (b _ Hj). lia.
Qed.

Lemma consistent_deleteStudent i st :
  consistent st -> consistent (deleteStudentDoc i (pullStudentEverywhere i st)).
Proof.
  intros Hcons x y Hx Hy. simpl in Hx, Hy.
  apply filter_In in Hx. destruct Hx as [Hx nx].
  apply negb_true_iff, Nat.eqb_neq in nx.
  apply in_map_iff in Hy. destruct Hy as [y0 [<- Hy]]. simpl.
  rewrite In_pull. specialize (Hcons x y0 Hx Hy). tauto.
Qed.

Lemma consistent_deleteCourse i st :
  consistent st -> consistent (deleteCourseDoc i (pullCourseEverywhere i st)).
Proof.
  intros Hcons x y Hx Hy. simpl in Hx, Hy.
  apply filter_In in Hy. destruct Hy as [Hy ny].
  apply negb_true_iff, Nat.eqb_neq in ny.
  apply in_map_iff in Hx. destruct Hx as [x0 [<- Hx]]. simpl.
  rewrite In_pull. specialize (Hcons x0 y Hx Hy). tauto.
Qed.

Lemma consistent_saveBoth st s c cs' ss' v st' :
  consistent st ->
  In s (studentDocs st) -> In c (courseDocs st) ->
  (forall j, j <> Course.id c -> (In j cs' <-> In j (Student.courses s))) ->
  (forall j, j <> Student.id s -> (In j ss' <-> In j (Course.students c))) ->
  (In (Course.id c) cs' <-> In (Student.id s) ss') ->
  saveBoth (Student.setCourses cs' s) (Course.setStudents ss' c) st = (Ok v, st') ->
  consistent st'.
Proof.
  intros H Hs Hc Hcs Hss Hpair. unfold saveBoth.
  destruct (validStudent _); [|discriminate].
  destruct (validCourse _); [|discriminate].
  intros [= _ <-]. now apply consistent_relink.
Qed.

Lemma snd_lift A (inj : A -> Value) r : snd (lift inj r) = snd r.
Proof. destruct r as [[a|e] st]; reflexivity. Qed.

Lemma lift_Ok A (inj : A -> Value) r v st' :
  lift inj r = (Ok v, st') -> exists a, r = (Ok a, st').
Proof.
  destruct r as [[a|e] st]; simpl; intros [= ]; subst. now exists a.
Qed.

Section Preservation.

Variable E : Env.

(** *** The resolvers, whatever they return *)

Lemma addStudent_store user input st :
  snd (addStudent E user input st) = st
  \/ snd (addStudent E user input st) = snd (insertStudent input st).
Proof.
  unfold addStudent. destruct user as [u|]; [|now left].
  destruct (in_email input); [|now left].
  repeat (match goal with |- context [if ?b then _ else _] => destruct b end;
          [now left|]).
  now right.
Qed.

Lemma addCourse_store user input st :
  snd (addCourse E user input st) = st
  \/ snd (addCourse E user input st) = snd (insertCourse input st).
Proof.
  unfold addCourse. destruct user as [u|]; [|now left].
  repeat (match goal with |- context [if ?b then _ else _] => destruct b end;
          [now left|]).
  now right.
Qed.

Lemma updateStudent_store user i input st :
  snd (updateStudent user i input st) = st
  \/ exists s, In s (studentDocs st)
               /\ snd (updateStudent user i input st) = writeStudent (patchStudent input s) st.
Proof.
  unfold updateStudent, findStudentByIdAndUpdate. destruct user as [u|]; [|now left].
  destruct (truthyStr (in_email input) && _); [now left|].
  destruct (findStudent i (studentDocs st)) as [s|] eqn:Hs; [|now left].
  destruct (emailTaken i (in_email input) (studentDocs st)); [now left|].
  right. exists s. split; [exact (proj1 (findStudent_some _ _ _ Hs)) | reflexivity].
Qed.

Lemma updateCourse_store user i input st :
  snd (updateCourse user i input st) = st
  \/ exists c, In c (courseDocs st)
               /\ snd (updateCourse user i input st) = writeCourse (patchCourse input c) st.
Proof.
  unfold updateCourse, findCourseByIdAndUpdate. destruct user as [u|]; [|now left].
  destruct (findCourse i (courseDocs st)) as [c|] eqn:Hc; [|now left].
  destruct (codeTaken i (up_code input) (courseDocs st)); [now left|].
  right. exists c. split; [exact (proj1 (findCourse_some _ _ _ Hc)) | reflexivity].
Qed.

Lemma deleteStudent_store user i st :
  snd (deleteStudent user i st) = st
  \/ snd (deleteStudent user i st) = deleteStudentDoc i (pullStudentEverywhere i st).
Proof.
  unfold deleteStudent. destruct user as [u|]; [|now left].
  destruct (findStudent i (studentDocs st)) as [s|] eqn:Hs; [|now left].
  right. now rewrite (proj2 (findStudent_some _ _ _ Hs)).
Qed.

Lemma deleteCourse_store user i st :
  snd (deleteCourse user i st) = st
  \/ snd (deleteCourse user i st) = deleteCourseDoc i (pullCourseEverywhere i st).
Proof.
  unfold deleteCourse. destruct user as [u|]; [|now left].
  destruct (findCourse i (courseDocs st)) as [c|] eqn:Hc; [|now left].
  right. now rewrite (proj2 (findCourse_some _ _ _ Hc)).
Qed.

Lemma idsIssued_enrollStudent user sid cid st :
  idsIssued st -> idsIssued (snd (enrollStudent user sid cid st)).
Proof.
  intros H. destruct user as [u|]; [|exact H].
  destruct (findStudent (objectId sid) (studentDocs st)) as [s|] eqn:Hs;
    [|now rewrite enrollStudent_missing by (now left)].
  destruct (findCourse (objectId cid) (courseDocs st)) as [c|] eqn:Hc;
    [|now rewrite enrollStudent_missing by (now right)].
  destruct (findStudent_some _ _ _ Hs) as [Is es].
  destruct (findCourse_some _ _ _ Hc) as [Ic ec].
  rewrite (enrollStudent_found u _ _ _ _ _ Hs Hc).
  apply idsIssued_saveBoth; try assumption; intros j Hj;
    apply In_pushUnique in Hj; destruct Hj as [->|Hj].
  - rewrite <- ec. exact (proj1 (proj2 H c Ic)).
  - exact (proj2 (proj1 H s Is) j Hj).
  - rewrite <- es. exact (proj1 (proj1 H s Is)).
  - exact (proj2 (proj2 H c Ic) j Hj).
Qed.

Lemma idsIssued_unenrollStudent user sid cid st :
  idsIssued st -> idsIssued (snd (unenrollStudent user sid cid st)).
Proof.
  intros H. destruct user as [u|]; [|exact H].
  destruct (findStudent sid (studentDocs st)) as [s|] eqn:Hs;
    [|now rewrite unenrollStudent_missing by (now left)].
  destruct (findCourse cid (courseDocs st)) as [c|] eqn:Hc;
    [|now rewrite unenrollStudent_missing by (now right)].
  destruct (findStudent_some _ _ _ Hs) as [Is es].
  destruct (findCourse_some _ _ _ Hc) as [Ic ec].
  rewrite (unenrollStudent_found u _ _ _ _ _ Hs Hc).
  apply idsIssued_saveBoth; try assumption; intros j Hj; apply In_pull in Hj.
  - exact (proj2 (proj1 H s Is) j (proj1 Hj)).
  - exact (proj2 (proj2 H c Ic) j (proj1 Hj)).
Qed.

(** Every mutation call, completed or not, keeps the ids issued. *)
Lemma idsIssued_execute user m st :
  idsIssued st -> idsIssued (snd (execute E user m st)).
Proof.
  intros H. destruct m; simpl; rewrite snd_lift.
  - destruct (addStudent_store user input st) as [->| ->];
      [exact H | now apply idsIssued_insertStudent].
  - destruct (updateStudent_store user i input st) as [->|(s & Hs & ->)]; [exact H|].
    apply idsIssued_writeStudent with (s:=s); try assumption; [reflexivity|].
    exact (proj2 (proj1 H s Hs)).
  - destruct (deleteStudent_store user i st) as [->| ->];
      [exact H | now apply idsIssued_deleteStudent].
  - destruct (addCourse_store user input st) as [->| ->];
      [exact H | now apply idsIssued_insertCourse].
  - destruct (updateCourse_store user i input st) as [->|(c & Hc & ->)]; [exact H|].
    apply idsIssued_writeCourse with (c:=c); try assumption; [reflexivity|].
    exact (proj2 (proj2 H c Hc)).
  - destruct (deleteCourse_store user i st) as [->| ->];
      [exact H | now apply idsIssued_deleteCourse].
  - now apply idsIssued_enrollStudent.
  - now apply idsIssued_unenrollStudent.
Qed.

Lemma reachable_idsIssued st : reachable E st -> idsIssued st.
Proof.
  induction 1 as [|st user m _ IH]; [apply idsIssued_empty | now apply idsIssued_execute].
Qed.

(** *** The resolvers that run to completion *)

Lemma consistent_enrollStudent user sid cid st v st' :
  enrollStudent user sid cid st = (Ok v, st') -> consistent st -> consistent st'.
Proof.
  destruct user as [u|]; [|discriminate].
  destruct (findStudent (objectId sid) (studentDocs st)) as [s|] eqn:Hs;
    [|rewrite enrollStudent_missing by (now left); discriminate].
  destruct (findCourse (objectId cid) (courseDocs st)) as [c|] eqn:Hc;
    [|rewrite enrollStudent_missing by (now right); discriminate].
  destruct (findStudent_some _ _ _ Hs) as [Is es].
  destruct (findCourse_some _ _ _ Hc) as [Ic ec].
  rewrite (enrollStudent_found u _ _ _ _ _ Hs Hc). intros He H.
  apply (consistent_saveBoth st s c (pushUnique cid (Student.courses s))
           (pushUnique sid (Course.students c)) v st' H Is Ic);
    [| | |exact He]; rewrite ?es, ?ec.
  - intros j ne. rewrite In_pushUnique. tauto.
  - intros j ne. rewrite In_pushUnique. tauto.
  - rewrite !In_pushUnique. tauto.
Qed.

Lemma consistent_unenrollStudent user sid cid st v st' :
  unenrollStudent user sid cid st = (Ok v, st') -> consistent st -> consistent st'.
Proof.
  destruct user as [u|]; [|discriminate].
  destruct (findStudent sid (studentDocs st)) as [s|] eqn:Hs;
    [|rewrite unenrollStudent_missing by (now left); discriminate].
  destruct (findCourse cid (courseDocs st)) as [c|] eqn:Hc;
    [|rewrite unenrollStudent_missing by (now right); discriminate].
  destruct (findStudent_some _ _ _ Hs) as [Is es].
  destruct (findCourse_some _ _ _ Hc) as [Ic ec].
  rewrite (unenrollStudent_found u _ _ _ _ _ Hs Hc). intros He H.
  apply (consistent_saveBoth st s c (pull cid (Student.courses s))
           (pull sid (Course.students c)) v st' H Is Ic);
    [| | |exact He]; rewrite ?es, ?ec.
  - intros j ne. rewrite In_pull. tauto.
  - intros j ne. rewrite In_pull. tauto.
  - rewrite !In_pull. tauto.
Qed.

(** Every guarded mutation that runs to completion, from a store whose
    ids were issued and whose two sides agree, ends in a store whose two
    sides agree. *)
Lemma consistent_execute user m st v st' :
  execute E user m st = (Ok v, st') -> idsIssued st -> consistent st -> consistent st'.
Proof.
  intros He Hi H.
  destruct m; simpl in He; apply lift_Ok in He; destruct He as [a He].
  - replace st' with (snd (addStudent E user input st)) by now rewrite He.
    destruct (addStudent_store user input st) as [->| ->];
      [exact H | now apply consistent_insertStudent].
  - replace st' with (snd (updateStudent user i input st)) by now rewrite He.
    destruct (updateStudent_store user i input st) as [->|(s & Hs & ->)]; [exact H|].
    now apply consistent_writeStudent with (s:=s).
  - replace st' with (snd (deleteStudent user i st)) by now rewrite He.
    destruct (deleteStudent_store user i st) as [->| ->];
      [exact H | now apply consistent_deleteStudent].
  - replace st' with (snd (addCourse E user input st)) by now rewrite He.
    destruct (addCourse_store user input st) as [->| ->];
      [exact H | now apply consistent_insertCourse].
  - replace st' with (snd (updateCourse user i input st)) by now rewrite He.
    destruct (updateCourse_store user i input st) as [->|(c & Hc & ->)]; [exact H|].
    now apply consistent_writeCourse with (c:=c).
  - replace st' with (snd (deleteCourse user i st)) by now rewrite He.
    destruct (deleteCourse_store user i st) as [->| ->];
      [exact H | now apply consistent_deleteCourse].
  - exact (consistent_enrollStudent user studentId courseId st a st' He H).
  - exact (consistent_unenrollStudent user studentId courseId st a st' He H).
Qed.

Lemma completed_reachable st : completed E st -> reachable E st.
Proof.
  induction 1 as [|st user m v st' _ IH He]; [apply reach_empty|].
  replace st' with (snd (execute E user m st)) by now rewrite He.
  now apply reach_step.
Qed.

(** C1. In every store reached from the empty one through mutations that
    ran to completion, a student lists a course exactly when the course
    lists the student.  And in every store the eight mutations can bring
    about, completed or not, a mutation that runs to completion preserves
    this: if the two sides agree before it, they agree after it. *)
Theorem completed_mutations_keep_both_sides st :
  (completed E st -> consistent st)
  /\ (reachable E st -> consistent st ->
      forall user m v st', execute E user m st = (Ok v, st') -> consistent st').
Proof.
  split.
  - induction 1 as [|st user m v st' Hd IH He]; [apply consistent_empty|].
    apply (consistent_execute user m st v st' He); [|exact IH].
    now apply reachable_idsIssued, completed_reachable.
  - intros Hr H user m v st' He.
    apply (consistent_execute user m st v st' He); [|exact H].
    now apply reachable_idsIssued.
Qed.

End Preservation.

Lemma campus_completed : completed refEnv campus.
Proof.
  apply (done_step refEnv registered (Some alice) (EnrollStudent (hex 0) (hex 1))
           (VStudent (Student.mk 0 "Ann" "ann@uni.edu" 20 "" [1])));
    [|reflexivity].
  apply (done_step refEnv
           (runAll [AddStudent (studentInput "Ann" "ann@uni.edu" 20)] emptyStore)
           (Some alice) (AddCourse (mkCourseInput "Logic" "CS101" 3 "Turing"))
           (VCourse (Course.mk 1 "Logic" "CS101" 3 "Turing" [])));
    [|reflexivity].
  apply (done_step refEnv emptyStore (Some alice)
           (AddStudent (studentInput "Ann" "ann@uni.edu" 20))
           (VStudent (Student.mk 0 "Ann" "ann@uni.edu" 20 "" [])));
    [|reflexivity].
  apply done_empty.
Qed.

(** [campus] is reached by three completed mutations; unenrolling the
    student from it runs to completion as well. *)
Lemma completed_mutations_keep_both_sides_campus :
  consistent campus
  /\ consistent (snd (execute refEnv (Some alice) (UnenrollStudent 0 1) campus)).
Proof.
  destruct (completed_mutations_keep_both_sides refEnv campus) as [Hc Hp].
  pose proof (Hc campus_completed) as H. split; [exact H|].
  apply (Hp (completed_reachable refEnv campus campus_completed) H
            (Some alice) (UnenrollStudent 0 1)
            (VStudent (Student.mk 0 "Ann" "ann@uni.edu" 20 "" []))).
  reflexivity.
Defined.

(** ** Updates and the range validations *)

(** C10, as the code has it.  For an authenticated call on an id that
    resolves, [updateCourse] writes and returns the course with the
    provided fields set, whatever the credits, provided the patch sets no
    code that another course holds; [updateStudent] does the same
    whatever the age, provided an email in the patch holds an at-sign and
    is not the email of another student.  The unique index on code and on
    email is the one thing besides authentication, existence and the
    email format that refuses an update.  The ranges are checked by
    [addCourse] (credits from 1 to 6) and [addStudent] (age at least 16)
    alone. *)
Theorem update_skips_range_validation :
  (forall u i p st c,
     findCourse i (courseDocs st) = Some c ->
     codeTaken i (up_code p) (courseDocs st) = false ->
     updateCourse (Some u) i p st = (Ok (patchCourse p c), writeCourse (patchCourse p c) st)
     /\ findCourse i (courseDocs (writeCourse (patchCourse p c) st)) = Some (patchCourse p c)
     /\ (forall v, up_credits p = Some v -> Course.credits (patchCourse p c) = v))
  /\ (forall u i p st s,
     findStudent i (studentDocs st) = Some s ->
     (truthyStr (in_email p) = true -> includes "@" (orElse (in_email p) "") = true) ->
     emailTaken i (in_email p) (studentDocs st) = false ->
     updateStudent (Some u) i p st = (Ok (patchStudent p s), writeStudent (patchStudent p s) st)
     /\ findStudent i (studentDocs (writeStudent (patchStudent p s) st)) = Some (patchStudent p s)
     /\ (forall v, in_age p = Some v -> Student.age (patchStudent p s) = v))
  /\ (forall E u input st,
     (in_credits input < 1 \/ 6 < in_credits input)%Z ->
     addCourse E (Some u) input st = (Err CreditsOutOfRange, st))
  /\ (forall E u input st e a,
     in_email input = Some e -> includes "@" e = true ->
     in_age input = Some a -> (a < 16)%Z ->
     addStudent E (Some u) input st = (Err StudentTooYoung, st)).
Proof.
  split; [|split; [|split]].
  - intros u i p st c Hc Hu. split; [|split].
    + unfold updateCourse, findCourseByIdAndUpdate. now rewrite Hc, Hu.
    + apply (@findCourse_saved i c (patchCourse p c) st Hc).
      exact (proj2 (findCourse_some _ _ _ Hc)).
    + intros v Hv. simpl. now rewrite Hv.
  - intros u i p st s Hs He Hu. split; [|split].
    + unfold updateStudent, findStudentByIdAndUpdate. rewrite Hs, Hu.
      destruct (truthyStr (in_email p)); [rewrite (He eq_refl)|]; reflexivity.
    + apply (@findStudent_saved i s (patchStudent p s) st Hs).
      exact (proj2 (findStudent_some _ _ _ Hs)).
    + intros v Hv. simpl. now rewrite Hv.
  - intros E u input st H. unfold addCourse.
    replace ((in_credits input <? 1) || (6 <? in_credits input))%Z with true; [reflexivity|].
    symmetry. apply orb_true_iff. rewrite !Z.ltb_lt. exact H.
  - intros E u input st e a He Hat Ha Hlt. unfold addStudent.
    rewrite He, Hat, Ha. simpl. apply Z.ltb_lt in Hlt. now rewrite Hlt.
Qed.

(** C10, as stated, fails: in [faculty] the id of the second course
    resolves, and an update that sets its credits to 7 together with the
    code of the first course is refused by the unique index on code;
    nothing is written.  An update of Bob's age together with the email
    of Ann is refused in the same way. *)
Lemma update_refused_on_repeated_key :
  findCourse 3 (courseDocs faculty) = Some (Course.mk 3 "Sets" "CS102" 4 "Cantor" [0; 2])
  /\ updateCourse (Some alice) 3
       (mkCourseUpdateInput None (Some "CS101") (Some 7%Z) None) faculty
     = (Err DuplicateKey, faculty)
  /\ ~ (exists c' st',
          updateCourse (Some alice) 3
            (mkCourseUpdateInput None (Some "CS101") (Some 7%Z) None) faculty
          = (Ok c', st'))
  /\ findStudent 2 (studentDocs faculty) = Some (Student.mk 2 "Bob" "bob@uni.edu" 19 "" [3])
  /\ updateStudent (Some alice) 2
       (mkStudentInput None (Some "ann@uni.edu") (Some 10%Z) None) faculty
     = (Err DuplicateKey, faculty)
  /\ ~ (exists s' st',
          updateStudent (Some alice) 2
            (mkStudentInput None (Some "ann@uni.edu") (Some 10%Z) None) faculty
          = (Ok s', st')).
Proof.
  split; [reflexivity|]. split; [reflexivity|].
  split; [intros (c' & st' & H); discriminate H|].
  split; [reflexivity|]. split; [reflexivity|].
  intros (s' & st' & H). discriminate H.
Qed.

(** ** Signup *)

Lemma findUser_some A email users :
  (exists u, In u users /\ toLowerCase A (User.email u) = toLowerCase A email)
  <-> findUser A email users <> None.
Proof.
  unfold findUser. split.
  - intros [u [Hu e]] Hn. apply (find_none _ _ Hn) in Hu.
    apply String.eqb_neq in Hu. contradiction.
  - intros H. destruct (find _ users) as [u|] eqn:e; [|contradiction].
    apply find_some in e. exists u. split; [tauto|]. now apply String.eqb_eq.
Qed.

(** C9. [signup] fails exactly when an identity with the same email up to
    letter case exists, or the email holds no at-sign, or the password is
    shorter than six characters, and a failed signup stores nothing.  On
    success the one identity added holds the bcrypt hash of the password
    under the drawn salt, and the response is the token with the id and
    the email of that identity: the [User] type has no field for the
    hash. *)
Theorem signup_fails_iff A email password now salt users :
  (isErr (fst (signup A email password now salt users)) = true
   <-> (exists u, In u users /\ toLowerCase A (User.email u) = toLowerCase A email)
       \/ includes "@" email = false
       \/ String.length password < 6)
  /\ (forall e users', signup A email password now salt users = (Err e, users') ->
        users' = users)
  /\ (forall r users', signup A email password now salt users = (Ok r, users') ->
        users' = (users ++ [User.mk (toString now) email (bcryptHash A password 10 salt)])%list
        /\ authPayload r
           = mkAuthPayload (jwtSign A (mkClaims (toString now) email) now)
               (mkUserView (toString now) email)).
Proof.
  pose proof (findUser_some A email users) as Hf.
  unfold signup.
  destruct (findUser A email users) as [u0|] eqn:ef.
  - split; [|split]; simpl.
    + split; [intros _; left; apply Hf; discriminate | reflexivity].
    + now intros e users' [= _ <-].
    + discriminate.
  - assert (Hn : ~ exists u, In u users /\ toLowerCase A (User.email u) = toLowerCase A email)
      by (intros H; apply Hf in H; now apply H).
    destruct (includes "@" email) eqn:ei; simpl.
    + destruct (String.length password <? 6) eqn:ep; simpl.
      * apply Nat.ltb_lt in ep. split; [|split].
        -- split; [intros _; right; right; exact ep | reflexivity].
        -- now intros e users' [= _ <-].
        -- discriminate.
      * apply Nat.ltb_ge in ep. split; [|split].
        -- split; [discriminate|]. intros [H|[H|H]]; [contradiction | discriminate | lia].
        -- discriminate.
        -- intros r users' [= <- <-]. split; reflexivity.
    + split; [|split].
      * split; [intros _; right; left; reflexivity | reflexivity].
      * now intros e users' [= _ <-].
      * discriminate.
Qed.

(** ** Pagination *)

Lemma pageLimit_default options :
  field options limit = None -> pageLimit options = 10%Z.
Proof. unfold pageLimit. now intros ->. Qed.

Lemma pageOffset_default options :
  field options offset = None -> pageOffset options = 0%Z.
Proof. unfold pageOffset. now intros ->. Qed.

Lemma pageLimit_le_50 options : (pageLimit options <= 50)%Z.
Proof. unfold pageLimit. lia. Qed.

Lemma cursorLimit_length A (n : Z) (l : list A) :
  (0 < n <= 50)%Z -> List.length (cursorLimit n l) <= 50.
Proof.
  intros H. unfold cursorLimit.
  destruct (Z.eqb_spec n 0); [lia|].
  destruct (Z.ltb_spec n 0); [lia|].
  rewrite length_firstn. lia.
Qed.

Lemma In_firstn A (n : nat) (l : list A) x : In x (firstn n l) -> In x l.
Proof.
  intros H. rewrite <- (firstn_skipn n l). apply in_or_app. now left.
Qed.

Lemma In_skipn A (n : nat) (l : list A) x : In x (skipn n l) -> In x l.
Proof.
  intros H. rewrite <- (firstn_skipn n l). apply in_or_app. now right.
Qed.

Lemma cursorLimit_incl A (n : Z) (l : list A) x : In x (cursorLimit n l) -> In x l.
Proof.
  unfold cursorLimit.
  destruct (n =? 0)%Z; [auto|]. destruct (n <? 0)%Z; apply In_firstn.
Qed.

Lemma cursorSkip_incl A (n : Z) (l l' : list A) x :
  cursorSkip n l = Ok l' -> In x l' -> In x l.
Proof.
  unfold cursorSkip. destruct (n <? 0)%Z; [discriminate|].
  intros [= <-]. apply In_skipn.
Qed.

(** A requested limit that is not negative, or none: the limit passed to
    the cursor lies between 1 and 50. *)
Lemma pageLimit_positive options :
  (0 <= orElse (field options limit) 0)%Z -> (0 < pageLimit options <= 50)%Z.
Proof.
  unfold pageLimit, orInt. destruct (field options limit) as [z|]; simpl; [|lia].
  destruct (Z.eqb_spec z 0); lia.
Qed.

(** X1. With no requested limit, or one that is not negative,
    [getAllStudents] returns at most fifty documents. *)
Lemma getAllStudents_page_bounded E filter options st l :
  (0 <= orElse (field options limit) 0)%Z ->
  getAllStudents E filter options st = Ok l -> List.length l <= 50.
Proof.
  intros H. unfold getAllStudents.
  destruct (cursorSkip _ _) as [l0|]; [|discriminate].
  intros [= <-]. now apply cursorLimit_length, pageLimit_positive.
Qed.

Lemma getAllCourses_page_bounded E filter options st l :
  (0 <= orElse (field options limit) 0)%Z ->
  getAllCourses E filter options st = Ok l -> List.length l <= 50.
Proof.
  intros H. unfold getAllCourses.
  destruct (cursorSkip _ _) as [l0|]; [|discriminate].
  intros [= <-]. now apply cursorLimit_length, pageLimit_positive.
Qed.

(** C2, at the input where the code leaves it.  [Math.min] bounds the
    limit from above only: a requested limit of -51 reaches the cursor
    as -51, which the store reads as fifty-one documents in one batch.
    With fifty-one students stored, [getAllStudents] returns all of them. *)
Theorem negative_limit_exceeds_ceiling :
  pageLimit (Some (mkListOptions (Some (-51)%Z) None None None)) = (-51)%Z
  /\ exists l,
       getAllStudents refEnv None (Some (mkListOptions (Some (-51)%Z) None None None)) crowd
         = Ok l
       /\ List.length l = 51.
Proof.
  split; [reflexivity|].
  eexists. split; [vm_compute; reflexivity | reflexivity].
Qed.

(** ** Range filters *)

Lemma rangeQuery_bounds lo hi r x :
  rangeQuery lo hi = Some r -> inRange r x = true ->
  (forall m, lo = Some m -> m <> 0%Z -> (m <= x)%Z)
  /\ (forall m, hi = Some m -> m <> 0%Z -> (x <= m)%Z).
Proof.
  unfold rangeQuery, inRange.
  destruct (truthyInt lo || truthyInt hi); [|discriminate].
  intros [= <-]. simpl. rewrite andb_true_iff. intros [Hlo Hhi].
  split; intros m -> ne; simpl in *.
  - destruct (Z.eqb_spec m 0); [contradiction|]. simpl in Hlo. now apply Z.leb_le.
  - destruct (Z.eqb_spec m 0); [contradiction|]. simpl in Hhi. now apply Z.leb_le.
Qed.

Lemma rangeQuery_set lo hi :
  truthyInt lo = true \/ truthyInt hi = true -> rangeQuery lo hi <> None.
Proof.
  unfold rangeQuery. intros H.
  replace (truthyInt lo || truthyInt hi) with true; [discriminate|].
  symmetry. now apply orb_true_iff.
Qed.

(** X2. Every student [getAllStudents] returns is a stored student whose
    age meets each bound that was given and is not zero. *)
Lemma getAllStudents_within_bounds E filter options st l s :
  getAllStudents E filter options st = Ok l -> In s l ->
  In s (studentDocs st)
  /\ (forall m, field filter minAge = Some m -> m <> 0%Z -> (m <= Student.age s)%Z)
  /\ (forall m, field filter maxAge = Some m -> m <> 0%Z -> (Student.age s <= m)%Z).
Proof.
  unfold getAllStudents.
  destruct (cursorSkip _ _) as [l0|] eqn:es; [|discriminate].
  intros [= <-] Hs. apply cursorLimit_incl in Hs.
  apply (cursorSkip_incl _ _ _ _ s es) in Hs.
  assert (Hf : In s (List.filter (matchesStudent E (studentQuery filter)) (studentDocs st))).
  { destruct (whenTruthy (field options sortBy)); [|exact Hs].
    eapply Permutation_in; [apply sortStudents_perm | exact Hs]. }
  apply filter_In in Hf. destruct Hf as [Hin Hm]. split; [exact Hin|].
  unfold matchesStudent in Hm. rewrite !andb_true_iff in Hm.
  destruct Hm as [_ Hage]. unfold studentQuery in Hage. simpl in Hage.
  destruct (rangeQuery (field filter minAge) (field filter maxAge)) as [r|] eqn:er.
  - exact (rangeQuery_bounds _ _ _ _ er Hage).
  - split; intros m e ne; exfalso; eapply rangeQuery_set; try exact er;
      rewrite e; simpl; [left|right]; now destruct (Z.eqb_spec m 0).
Qed.

(** C8, at the input where the code leaves it.  The guards test the
    bounds for truthiness, so a bound of 0 counts as not given: with
    [maxAge: 0] alone no [age] constraint is built and a student aged 20
    is returned; [maxCredits: 0] does the same for courses. *)
Theorem zero_bound_not_applied :
  studentQuery (Some (mkStudentFilter None None None None (Some 0%Z)))
    = mkStudentQuery None None None None
  /\ getAllStudents refEnv (Some (mkStudentFilter None None None None (Some 0%Z))) None campus
     = Ok [Student.mk 0 "Ann" "ann@uni.edu" 20 "" [1]]
  /\ getAllCourses refEnv (Some (mkCourseFilter None None None None (Some 0%Z))) None campus
     = Ok [Course.mk 1 "Logic" "CS101" 3 "Turing" [0]].
Proof. repeat split. Qed.

(** ** The theorems at concrete requests *)

(** Enrolling student 0 in course 1 of [registered]. *)
Lemma enrollStudent_registered :
  exists s' st',
    enrollStudent (Some alice) (hex 0) (hex 1) registered = (Ok s', st')
    /\ In 1 (Student.courses s')
    /\ exists c', findCourse 1 (courseDocs st') = Some c' /\ In 0 (Course.students c').
Proof.
  destruct (proj2 (enrollStudent_pairs_both_sides alice (hex 0) (hex 1) registered)
              _ _ eq_refl eq_refl eq_refl eq_refl)
    as (s' & c' & st' & He & _ & _ & _ & Hc & Is & Ic).
  exists s', st'. split; [exact He|]. split; [exact Is|]. exists c'. now split.
Defined.

(** Enrolling student 0 in course 1 of [campus], where they already are. *)
Lemma enrollStudent_campus_again :
  findStudent 0 (studentDocs (snd (enrollStudent (Some alice) (hex 0) (hex 1) campus)))
    = findStudent 0 (studentDocs campus)
  /\ findCourse 1 (courseDocs (snd (enrollStudent (Some alice) (hex 0) (hex 1) campus)))
     = findCourse 1 (courseDocs campus).
Proof.
  exact (proj2 (enrollStudent_idempotent (Some alice) (hex 0) (hex 1) campus
                  eq_refl eq_refl)
           _ _ eq_refl eq_refl (or_introl eq_refl) (or_introl eq_refl)).
Defined.

(** Unenrolling student 0 from course 1 of [campus]. *)
Lemma unenrollStudent_campus :
  exists s' st',
    unenrollStudent (Some alice) 0 1 campus = (Ok s', st')
    /\ ~ In 1 (Student.courses s')
    /\ exists c', findCourse 1 (courseDocs st') = Some c' /\ ~ In 0 (Course.students c').
Proof.
  destruct (proj2 (unenrollStudent_unpairs_both_sides alice 0 1 campus)
              _ _ eq_refl eq_refl eq_refl eq_refl)
    as (s' & c' & st' & He & _ & _ & _ & Hc & Is & Ic & _).
  exists s', st'. split; [exact He|]. split; [exact Is|]. exists c'. now split.
Defined.

(** Deleting student 0 of [drifted], whom two courses list although the
    student lists none. *)
Lemma deleteStudent_drifted :
  Student.courses (Student.mk 0 "Ann" "ann@uni.edu" 20 "" []) = []
  /\ exists st',
       deleteStudent (Some alice) 0 drifted = (Ok true, st')
       /\ (forall c, In c (courseDocs st') -> ~ In 0 (Course.students c))
       /\ courseDocs st' = [Course.mk 1 "Logic" "CS101" 3 "Turing" [];
                            Course.mk 2 "Sets" "CS102" 4 "Cantor" [5]].
Proof.
  split; [reflexivity|].
  destruct (proj1 (delete_cascades_over_whole_collection alice 0 drifted) _ eq_refl)
    as (st' & He & _ & Hm & H & _).
  exists st'. split; [exact He|]. split; [exact H | exact Hm].
Defined.

(** Setting the credits of course 1 of [campus] to 7, and the age of
    student 0 to 10. *)
Lemma update_out_of_range_campus :
  fst (updateCourse (Some alice) 1 (mkCourseUpdateInput None None (Some 7%Z) None) campus)
    = Ok (Course.mk 1 "Logic" "CS101" 7 "Turing" [0])
  /\ fst (updateStudent (Some alice) 0 (mkStudentInput None None (Some 10%Z) None) campus)
     = Ok (Student.mk 0 "Ann" "ann@uni.edu" 10 "" [1]).
Proof.
  destruct update_skips_range_validation as (Hc & Hs & _).
  split.
  - rewrite (proj1 (Hc alice 1 (mkCourseUpdateInput None None (Some 7%Z) None) campus
                      _ eq_refl eq_refl)).
    reflexivity.
  - rewrite (proj1 (Hs alice 0 (mkStudentInput None None (Some 10%Z) None) campus
                      _ eq_refl (fun e => match Bool.diff_false_true e with end) eq_refl)).
    reflexivity.
Defined.

(** A page of [crowd] under a requested limit of 500. *)
Lemma getAllStudents_page_bounded_crowd :
  exists l,
    getAllStudents refEnv None (Some (mkListOptions (Some 500%Z) None None None)) crowd = Ok l
    /\ List.length l <= 50.
Proof.
  eexists. split; [vm_compute; reflexivity|].
  apply (getAllStudents_page_bounded refEnv None
           (Some (mkListOptions (Some 500%Z) None None None)) crowd).
  - simpl. lia.
  - vm_compute. reflexivity.
Defined.

(** [campus] filtered by ages 18 to 20. *)
Lemma getAllStudents_within_bounds_campus :
  getAllStudents refEnv (Some (mkStudentFilter None None None (Some 18%Z) (Some 20%Z))) None campus
    = Ok [Student.mk 0 "Ann" "ann@uni.edu" 20 "" [1]]
  /\ (18 <= 20 <= 20)%Z.
Proof.
  split; [reflexivity|].
  destruct (getAllStudents_within_bounds refEnv
              (Some (mkStudentFilter None None None (Some 18%Z) (Some 20%Z))) None campus
              _ (Student.mk 0 "Ann" "ann@uni.edu" 20 "" [1]) eq_refl (or_introl eq_refl))
    as (_ & Hlo & Hhi).
  split.
  - apply (Hlo 18%Z eq_refl). discriminate.
  - apply (Hhi 20%Z eq_refl). discriminate.
Defined.

(** * Further properties *)

(** ** The shape of every reachable store *)

Lemma map_id_writeStudent s st :
  map Student.id (studentDocs (writeStudent s st)) = map Student.id (studentDocs st).
Proof.
  unfold writeStudent. simpl. rewrite map_map. apply map_ext. intros d.
  destruct (Nat.eqb_spec (Student.id d) (Student.id s)); congruence.
Qed.

Lemma map_id_writeCourse c st :
  map Course.id (courseDocs (writeCourse c st)) = map Course.id (courseDocs st).
Proof.
  unfold writeCourse. simpl. rewrite map_map. apply map_ext. intros d.
  destruct (Nat.eqb_spec (Course.id d) (Course.id c)); congruence.
Qed.

Lemma NoDup_map_filter (A B : Type) (f : A -> B) (p : A -> bool) l :
  NoDup (map f l) -> NoDup (map f (List.filter p l)).
Proof.
  induction l as [|a l IH]; simpl; [auto|].
  intros H. inversion H as [|x xs Hn Hd]; subst.
  destruct (p a); simpl; [|auto]. constructor; [|auto].
  intros Hin. apply Hn. apply in_map_iff in Hin. destruct Hin as [y [e Hy]].
  apply filter_In in Hy. apply in_map_iff. exists y. tauto.
Qed.

(** An id sent as printed is pushed only when the array does not hold it. *)
Lemma NoDup_pushUnique x l : lowerHex x = true -> NoDup l -> NoDup (pushUnique x l).
Proof.
  intros Hx H. unfold pushUnique. destruct (arrayIncludes x l) eqn:e; [exact H|].
  assert (Hn : ~ In (objectId x) l).
  { intros Hi. apply (arrayIncludes_printed x l Hx) in Hi. congruence. }
  apply NoDup_rev in H. rewrite <- (rev_involutive (l ++ [objectId x])).
  apply NoDup_rev. rewrite rev_app_distr. simpl. constructor; [|exact H].
  intros Hi. apply Hn. now apply in_rev.
Qed.

Lemma NoDup_pull x l : NoDup l -> NoDup (pull x l).
Proof. apply NoDup_filter. Qed.

Lemma map_id_pullStudent i l :
  map Course.id (map (fun c => Course.setStudents (pull i (Course.students c)) c) l)
    = map Course.id l.
Proof. rewrite map_map. now apply map_ext. Qed.

Lemma map_id_pullCourse i l :
  map Student.id (map (fun s => Student.setCourses (pull i (Student.courses s)) s) l)
    = map Student.id l.
Proof. rewrite map_map. now apply map_ext. Qed.

Lemma In_map_id_student s l : In s l -> In (Student.id s) (map Student.id l).
Proof. apply in_map. Qed.

Lemma In_map_id_course c l : In c l -> In (Course.id c) (map Course.id l).
Proof. apply in_map. Qed.

(** The documents of a collection have distinct ids, every relation
    array satisfies [P], and every id in a relation array resolves.  [P]
    is a property of arrays that the empty array has and [pull] keeps:
    no demand at all for the stores any client can bring about, no
    repetition for the clients that send ids as they were printed. *)
Section Shape.

Variable P : list Id -> Prop.
Hypothesis P_nil : P [].
Hypothesis P_pull : forall x l, P l -> P (pull x l).

Definition arrays (st : Store) : Prop :=
  (forall s, In s (studentDocs st) -> P (Student.courses s))
  /\ (forall c, In c (courseDocs st) -> P (Course.students c)).

Definition shape (st : Store) : Prop :=
  uniqueIds st /\ arrays st /\ noDangling st.

(** The pushes of the request keep [P]. *)
Definition pushKeeps (m : Mutation) : Prop :=
  match m with
  | EnrollStudent studentId courseId =>
      (forall l, P l -> P (pushUnique courseId l))
      /\ (forall l, P l -> P (pushUnique studentId l))
  | _ => True
  end.

Lemma shape_empty : shape emptyStore.
Proof.
  repeat split; simpl; try constructor; intros; contradiction.
Qed.

Lemma shape_writeStudent st s s' :
  shape st -> In s (studentDocs st) -> Student.id s' = Student.id s ->
  P (Student.courses s') ->
  (forall j, In j (Student.courses s') -> In j (map Course.id (courseDocs st))) ->
  shape (writeStudent s' st).
Proof.
  intros ([Us Uc] & [Ds Dc] & [Gs Gc]) Hs ei Hn Hd. split; [|split].
  - split; [rewrite map_id_writeStudent; exact Us | exact Uc].
  - split; [|exact Dc]. intros x Hx. apply In_writeStudent in Hx.
    destruct Hx as [[-> _]|[Hx _]]; auto.
  - split.
    + intros x j Hx Hj. apply In_writeStudent in Hx. simpl.
      destruct Hx as [[-> _]|[Hx _]]; [now apply Hd | now apply (Gs x)].
    + intros c j Hc Hj. rewrite map_id_writeStudent. now apply (Gc c).
Qed.

Lemma shape_writeCourse st c c' :
  shape st -> In c (courseDocs st) -> Course.id c' = Course.id c ->
  P (Course.students c') ->
  (forall j, In j (Course.students c') -> In j (map Student.id (studentDocs st))) ->
  shape (writeCourse c' st).
Proof.
  intros ([Us Uc] & [Ds Dc] & [Gs Gc]) Hc ei Hn Hd. split; [|split].
  - split; [exact Us | rewrite map_id_writeCourse; exact Uc].
  - split; [exact Ds|]. intros x Hx. apply In_writeCourse in Hx.
    destruct Hx as [[-> _]|[Hx _]]; auto.
  - split.
    + intros s j Hs Hj. rewrite map_id_writeCourse. now apply (Gs s).
    + intros x j Hx Hj. apply In_writeCourse in Hx. simpl.
      destruct Hx as [[-> _]|[Hx _]]; [now apply Hd | now apply (Gc x)].
Qed.

Lemma shape_insertStudent input st :
  idsIssued st -> shape st -> shape (snd (insertStudent input st)).
Proof.
  intros [Is _] H.
  destruct (insertStudent_store input st) as [->|(s & ei & ec & ->)]; [exact H|].
  destruct H as ([Us Uc] & [Ds Dc] & [Gs Gc]).
  unfold shape, uniqueIds, arrays, noDangling. simpl. split; [|split].
  - split; [|exact Uc]. rewrite map_app. simpl.
    apply NoDup_rev in Us. rewrite <- (rev_involutive (map Student.id _ ++ _)).
    apply NoDup_rev. rewrite rev_app_distr. simpl. constructor; [|exact Us].
    intros Hi. apply in_rev in Hi. apply in_map_iff in Hi.
    destruct Hi as [d [e Hd]]. specialize (Is d Hd). lia.
  - split; [|exact Dc]. intros x Hx. apply in_app_iff in Hx.
    destruct Hx as [Hx|[<-|[]]]; [auto|]. rewrite ec. exact P_nil.
  - split.
    + intros x j Hx Hj. apply in_app_iff in Hx.
      destruct Hx as [Hx|[<-|[]]]; [now apply (Gs x)|]. rewrite ec in Hj. destruct Hj.
    + intros c j Hc Hj. rewrite map_app. apply in_or_app. left. now apply (Gc c).
Qed.

Lemma shape_insertCourse input st :
  idsIssued st -> shape st -> shape (snd (insertCourse input st)).
Proof.
  intros [_ Ic] H.
  destruct (insertCourse_store input st) as [->|(c & ei & ec & ->)]; [exact H|].
  destruct H as ([Us Uc] & [Ds Dc] & [Gs Gc]).
  unfold shape, uniqueIds, arrays, noDangling. simpl. split; [|split].
  - split; [exact Us|]. rewrite map_app. simpl.
    apply NoDup_rev in Uc. rewrite <- (rev_involutive (map Course.id _ ++ _)).
    apply NoDup_rev. rewrite rev_app_distr. simpl. constructor; [|exact Uc].
    intros Hi. apply in_rev in Hi. apply in_map_iff in Hi.
    destruct Hi as [d [e Hd]]. specialize (Ic d Hd). lia.
  - split; [exact Ds|]. intros x Hx. apply in_app_iff in Hx.
    destruct Hx as [Hx|[<-|[]]]; [auto|]. rewrite ec. exact P_nil.
  - split.
    + intros s j Hs Hj. rewrite map_app. apply in_or_app. left. now apply (Gs s).
    + intros x j Hx Hj. apply in_app_iff in Hx.
      destruct Hx as [Hx|[<-|[]]]; [now apply (Gc x)|]. rewrite ec in Hj. destruct Hj.
Qed.

Lemma shape_deleteStudent i st :
  shape st -> shape (deleteStudentDoc i (pullStudentEverywhere i st)).
Proof.
  intros ([Us Uc] & [Ds Dc] & [Gs Gc]).
  unfold shape, uniqueIds, arrays, noDangling. simpl. split; [|split].
  - split; [now apply NoDup_map_filter | now rewrite map_id_pullStudent].
  - split.
    + intros x Hx. apply filter_In in Hx. now apply Ds.
    + intros y Hy. apply in_map_iff in Hy. destruct Hy as [y0 [<- Hy]]. simpl.
      now apply P_pull, Dc.
  - split.
    + intros x j Hx Hj. apply filter_In in Hx. rewrite map_id_pullStudent.
      now apply (Gs x).
    + intros y j Hy Hj. apply in_map_iff in Hy. destruct Hy as [y0 [<- Hy]].
      simpl in Hj. apply In_pull in Hj. destruct Hj as [Hj ne].
      specialize (Gc y0 j Hy Hj). apply in_map_iff in Gc. destruct Gc as [d [e Hd]].
      apply in_map_iff. exists d. split; [exact e|]. apply filter_In. split; [exact Hd|].
      apply negb_true_iff, Nat.eqb_neq. congruence.
Qed.

Lemma shape_deleteCourse i st :
  shape st -> shape (deleteCourseDoc i (pullCourseEverywhere i st)).
Proof.
  intros ([Us Uc] & [Ds Dc] & [Gs Gc]).
  unfold shape, uniqueIds, arrays, noDangling. simpl. split; [|split].
  - split; [now rewrite map_id_pullCourse | now apply NoDup_map_filter].
  - split.
    + intros y Hy. apply in_map_iff in Hy. destruct Hy as [y0 [<- Hy]]. simpl.
      now apply P_pull, Ds.
    + intros x Hx. apply filter_In in Hx. now apply Dc.
  - split.
    + intros y j Hy Hj. apply in_map_iff in Hy. destruct Hy as [y0 [<- Hy]].
      simpl in Hj. apply In_pull in Hj. destruct Hj as [Hj ne].
      specialize (Gs y0 j Hy Hj). apply in_map_iff in Gs. destruct Gs as [d [e Hd]].
      apply in_map_iff. exists d. split; [exact e|]. apply filter_In. split; [exact Hd|].
      apply negb_true_iff, Nat.eqb_neq. congruence.
    + intros x j Hx Hj. apply filter_In in Hx. rewrite map_id_pullCourse.
      now apply (Gc x).
Qed.

(** Writing the student, then perhaps the course, as enroll and unenroll
    do. *)
Lemma shape_saveBoth st s c cs' ss' :
  shape st -> In s (studentDocs st) -> In c (courseDocs st) ->
  P cs' -> P ss' ->
  (forall j, In j cs' -> In j (map Course.id (courseDocs st))) ->
  (forall j, In j ss' -> In j (map Student.id (studentDocs st))) ->
  shape (snd (saveBoth (Student.setCourses cs' s) (Course.setStudents ss' c) st)).
Proof.
  intros H Hs Hc Ns Nc Gs Gc. unfold saveBoth.
  destruct (validStudent _); [|exact H].
  assert (H1 : shape (writeStudent (Student.setCourses cs' s) st))
    by (apply shape_writeStudent with (s:=s); auto).
  destruct (validCourse _); [|exact H1]. simpl.
  apply shape_writeCourse with (c:=c); auto.
  intros j Hj. rewrite map_id_writeStudent. now apply Gc.
Qed.

Lemma shape_enrollStudent user sid cid st :
  pushKeeps (EnrollStudent sid cid) ->
  shape st -> shape (snd (enrollStudent user sid cid st)).
Proof.
  intros [Kc Ks] H. destruct user as [u|]; [|exact H].
  destruct (findStudent (objectId sid) (studentDocs st)) as [s|] eqn:Hs;
    [|now rewrite enrollStudent_missing by (now left)].
  destruct (findCourse (objectId cid) (courseDocs st)) as [c|] eqn:Hc;
    [|now rewrite enrollStudent_missing by (now right)].
  destruct (findStudent_some _ _ _ Hs) as [Is es].
  destruct (findCourse_some _ _ _ Hc) as [Ic ec].
  rewrite (enrollStudent_found u _ _ _ _ _ Hs Hc).
  pose proof H as (U & [Ds Dc] & [Gs Gc]).
  apply shape_saveBoth; try assumption.
  - now apply Kc, Ds.
  - now apply Ks, Dc.
  - intros j Hj. apply In_pushUnique in Hj. destruct Hj as [->|Hj].
    + rewrite <- ec. now apply In_map_id_course.
    + now apply (Gs s).
  - intros j Hj. apply In_pushUnique in Hj. destruct Hj as [->|Hj].
    + rewrite <- es. now apply In_map_id_student.
    + now apply (Gc c).
Qed.

Lemma shape_unenrollStudent user sid cid st :
  shape st -> shape (snd (unenrollStudent user sid cid st)).
Proof.
  intros H. destruct user as [u|]; [|exact H].
  destruct (findStudent sid (studentDocs st)) as [s|] eqn:Hs;
    [|now rewrite unenrollStudent_missing by (now left)].
  destruct (findCourse cid (courseDocs st)) as [c|] eqn:Hc;
    [|now rewrite unenrollStudent_missing by (now right)].
  destruct (findStudent_some _ _ _ Hs) as [Is es].
  destruct (findCourse_some _ _ _ Hc) as [Ic ec].
  rewrite (unenrollStudent_found u _ _ _ _ _ Hs Hc).
  pose proof H as (U & [Ds Dc] & [Gs Gc]).
  apply shape_saveBoth; try assumption.
  - now apply P_pull, Ds.
  - now apply P_pull, Dc.
  - intros j Hj. apply In_pull in Hj. now apply (Gs s).
  - intros j Hj. apply In_pull in Hj. now apply (Gc c).
Qed.

Lemma shape_execute E user m st :
  pushKeeps m -> idsIssued st -> shape st -> shape (snd (execute E user m st)).
Proof.
  intros Hk Hi H. destruct m; simpl; rewrite snd_lift.
  - destruct (addStudent_store E user input st) as [->| ->];
      [exact H | now apply shape_insertStudent].
  - destruct (updateStudent_store user i input st) as [->|(s & Hs & ->)]; [exact H|].
    pose proof H as (U & [Ds Dc] & [Gs Gc]).
    apply shape_writeStudent with (s:=s); try assumption.
    + reflexivity.
    + exact (Ds s Hs).
    + intros j Hj. exact (Gs s j Hs Hj).
  - destruct (deleteStudent_store user i st) as [->| ->];
      [exact H | now apply shape_deleteStudent].
  - destruct (addCourse_store E user input st) as [->| ->];
      [exact H | now apply shape_insertCourse].
  - destruct (updateCourse_store user i input st) as [->|(c & Hc & ->)]; [exact H|].
    pose proof H as (U & [Ds Dc] & [Gs Gc]).
    apply shape_writeCourse with (c:=c); try assumption.
    + reflexivity.
    + exact (Dc c Hc).
    + intros j Hj. exact (Gc c j Hc Hj).
  - destruct (deleteCourse_store user i st) as [->| ->];
      [exact H | now apply shape_deleteCourse].
  - now apply shape_enrollStudent.
  - now apply shape_unenrollStudent.
Qed.

End Shape.

(** Whatever the clients send: distinct document ids, and no id that does
    not resolve. *)
Lemma reachable_shape E st : reachable E st -> uniqueIds st /\ noDangling st.
Proof.
  intros H.
  assert (Hs : shape (fun _ => True) st).
  { induction H as [|st user m Hr IH]; [apply shape_empty|].
    apply (shape_execute (fun _ => True) I (fun _ _ _ => I) E user m st).
    - now destruct m.
    - now apply (reachable_idsIssued E).
    - exact IH. }
  split; [exact (proj1 Hs) | exact (proj2 (proj2 Hs))].
Qed.

Lemma printed_reachable E st : reachableAsPrinted E st -> reachable E st.
Proof.
  induction 1 as [|st user m _ IH _]; [apply reach_empty | now apply reach_step].
Qed.

(** With ids sent as printed, no array repeats an id either. *)
Lemma printed_shape E st : reachableAsPrinted E st -> shape (@NoDup Id) st.
Proof.
  induction 1 as [|st user m Hr IH Hp]; [apply shape_empty|].
  apply (shape_execute (@NoDup Id) (NoDup_nil Id) NoDup_pull E user m st).
  - destruct m; try exact I. simpl in Hp. apply andb_true_iff in Hp.
    split; intros l; apply NoDup_pushUnique; tauto.
  - now apply (reachable_idsIssued E), printed_reachable.
  - exact IH.
Qed.

Lemma campus_reachable : reachable refEnv campus.
Proof. exact (completed_reachable refEnv campus campus_completed). Qed.

Lemma runAll_reachable ms st : reachable refEnv st -> reachable refEnv (runAll ms st).
Proof.
  revert st. induction ms as [|m ms IH]; intros st H; [exact H|].
  apply IH. now apply reach_step.
Qed.

Lemma runAll_printed ms st :
  forallb asPrinted ms = true ->
  reachableAsPrinted refEnv st -> reachableAsPrinted refEnv (runAll ms st).
Proof.
  revert st. induction ms as [|m ms IH]; intros st Hp H; [exact H|].
  simpl in Hp. apply andb_true_iff in Hp. destruct Hp as [Hm Hp].
  apply IH; [exact Hp | now apply printed_step].
Qed.

Lemma faculty_printed : reachableAsPrinted refEnv faculty.
Proof.
  apply (runAll_printed
           [ AddStudent (studentInput "Ann" "ann@uni.edu" 20);
             AddCourse (mkCourseInput "Logic" "CS101" 3 "Turing");
             EnrollStudent (hex 0) (hex 1);
             AddStudent (studentInput "Bob" "bob@uni.edu" 19);
             AddCourse (mkCourseInput "Sets" "CS102" 4 "Cantor");
             EnrollStudent (hex 0) (hex 3);
             EnrollStudent (hex 2) (hex 3) ] emptyStore eq_refl).
  apply printed_empty.
Qed.

(** The store of the repeated enrollment is one the mutations bring
    about, whatever the regular-expression engine: the two inserts meet
    empty collections. *)
Lemma reEnrolled_reachable E : reachable E reEnrolled.
Proof.
  change reEnrolled with
    (snd (execute E (Some alice) (EnrollStudent (hex 0) (upperHex 1))
       (snd (execute E (Some alice) (EnrollStudent (hex 0) (hex 1))
          (snd (execute E (Some alice)
                  (AddCourse (mkCourseInput "Logic" "CS101" 3 "Turing"))
             (snd (execute E (Some alice)
                     (AddStudent (studentInput "Ann" "ann@uni.edu" 20)) emptyStore)))))))).
  do 4 apply reach_step. apply reach_empty.
Qed.

(** X4. In every store the mutations can bring about, completed or not,
    every id a student lists is the id of a stored course and every id a
    course lists is the id of a stored student: the deletes pull the id
    out of the whole opposite collection, so none is left behind. *)
Theorem reachable_no_dangling_reference E st : reachable E st -> noDangling st.
Proof. intros H. exact (proj2 (reachable_shape E st H)). Qed.

Lemma reachable_no_dangling_reference_campus :
  In 1 (map Course.id (courseDocs campus)) /\ In 0 (map Student.id (studentDocs campus)).
Proof.
  destruct (reachable_no_dangling_reference refEnv campus campus_reachable) as [Gs Gc].
  split.
  - apply (Gs (Student.mk 0 "Ann" "ann@uni.edu" 20 "" [1]) 1); left; reflexivity.
  - apply (Gc (Course.mk 1 "Logic" "CS101" 3 "Turing" [0]) 0); left; reflexivity.
Defined.

(** X5. For clients that send ids back as they were printed, no student
    lists a course twice and no course lists a student twice, in every
    store the mutations can bring about, completed or not.  The proviso
    is needed: after the same pair was enrolled again with the course id
    in upper case, a store the mutations bring about holds a student who
    lists the course twice. *)
Theorem printed_ids_keep_arrays_without_duplicates E :
  (forall st, reachableAsPrinted E st -> noDuplicates st)
  /\ (exists st s, reachable E st /\ In s (studentDocs st) /\ ~ NoDup (Student.courses s)).
Proof.
  split.
  - intros st H. exact (proj1 (proj2 (printed_shape E st H))).
  - exists reEnrolled, (Student.mk 0 "Ann" "ann@uni.edu" 20 "" [1; 1]).
    split; [apply reEnrolled_reachable|]. split; [left; reflexivity|].
    simpl. intros H. inversion H as [|x l Hn _]; subst. apply Hn. now left.
Qed.

(** Ann of [faculty], enrolled in both courses, is enrolled in the second
    once more with the ids as printed: her courses stay the two. *)
Lemma printed_ids_keep_arrays_without_duplicates_faculty :
  findStudent 0 (studentDocs (runAll [EnrollStudent (hex 0) (hex 3)] faculty))
    = Some (Student.mk 0 "Ann" "ann@uni.edu" 20 "" [1; 3])
  /\ NoDup [1; 3]
  /\ NoDup (Course.students (Course.mk 3 "Sets" "CS102" 4 "Cantor" [0; 2])).
Proof.
  pose proof (proj1 (printed_ids_keep_arrays_without_duplicates refEnv)
                (runAll [EnrollStudent (hex 0) (hex 3)] faculty)
                (runAll_printed [EnrollStudent (hex 0) (hex 3)] faculty eq_refl
                   faculty_printed)) as [Ds Dc].
  split; [reflexivity|]. split.
  - apply (Ds (Student.mk 0 "Ann" "ann@uni.edu" 20 "" [1; 3])). left; reflexivity.
  - apply Dc. right; left; reflexivity.
Defined.

(** ** Field resolvers *)

Lemma In_Student_courses parent st c :
  In c (Student_courses parent st)
  <-> In c (courseDocs st) /\ In (Course.id c) (Student.courses parent).
Proof. unfold Student_courses. now rewrite filter_In, hasId_In. Qed.

Lemma In_Course_students parent st s :
  In s (Course_students parent st)
  <-> In s (studentDocs st) /\ In (Student.id s) (Course.students parent).
Proof. unfold Course_students. now rewrite filter_In, hasId_In. Qed.

(** The documents a list of ids resolves to are as many as the ids, when
    the ids are distinct, the documents' ids are distinct, and every id
    resolves. *)
Lemma resolved_length (A : Type) (id : A -> Id) (docs : list A) (ids : list Id) :
  NoDup (map id docs) -> NoDup ids ->
  (forall j, In j ids -> In j (map id docs)) ->
  List.length (List.filter (fun d => hasId (id d) ids) docs) = List.length ids.
Proof.
  intros Ud Ui Hr.
  rewrite <- (length_map id (List.filter _ docs)).
  apply Nat.le_antisymm.
  - apply NoDup_incl_length; [now apply NoDup_map_filter|].
    intros j Hj. apply in_map_iff in Hj. destruct Hj as [d [<- Hd]].
    apply filter_In in Hd. now apply hasId_In.
  - apply NoDup_incl_length; [exact Ui|].
    intros j Hj. specialize (Hr j Hj). apply in_map_iff in Hr.
    destruct Hr as [d [<- Hd]]. apply in_map, filter_In. split; [exact Hd|].
    now apply hasId_In.
Qed.

(** X6. For clients that send ids back as they were printed, the
    counters agree with the lists in every store the mutations can bring
    about: for a stored student [coursesCount] is the number of courses
    the [courses] field resolves to, and for a stored course
    [studentsCount] is the number of students [students] resolves to.
    The proviso is needed: after the same pair was enrolled again with
    the course id in upper case the student's [coursesCount] is 2 while
    [courses] resolves to one course. *)
Theorem counts_match_resolved_lists E :
  (forall st, reachableAsPrinted E st ->
     (forall s, In s (studentDocs st) ->
        Student_coursesCount s = List.length (Student_courses s st))
     /\ (forall c, In c (courseDocs st) ->
        Course_studentsCount c = List.length (Course_students c st)))
  /\ (exists st s,
        reachable E st /\ In s (studentDocs st)
        /\ Student_coursesCount s = 2 /\ List.length (Student_courses s st) = 1).
Proof.
  split.
  - intros st H. destruct (printed_shape E st H) as ([Us Uc] & [Ds Dc] & [Gs Gc]).
    split.
    + intros s Hs. unfold Student_coursesCount, Student_courses. symmetry.
      apply resolved_length; [exact Uc | now apply Ds | intros j Hj; now apply (Gs s)].
    + intros c Hc. unfold Course_studentsCount, Course_students. symmetry.
      apply resolved_length; [exact Us | now apply Dc | intros j Hj; now apply (Gc c)].
  - exists reEnrolled, (Student.mk 0 "Ann" "ann@uni.edu" 20 "" [1; 1]).
    split; [apply reEnrolled_reachable|]. split; [left; reflexivity|].
    split; reflexivity.
Qed.

(** In [faculty] Ann lists two courses and resolves to two, and the
    second course lists two students and resolves to two. *)
Lemma counts_match_resolved_lists_faculty :
  Student_coursesCount (Student.mk 0 "Ann" "ann@uni.edu" 20 "" [1; 3]) = 2
  /\ List.length (Student_courses (Student.mk 0 "Ann" "ann@uni.edu" 20 "" [1; 3]) faculty) = 2
  /\ List.length (Course_students (Course.mk 3 "Sets" "CS102" 4 "Cantor" [0; 2]) faculty) = 2.
Proof.
  destruct (proj1 (counts_match_resolved_lists refEnv) faculty faculty_printed) as [Hs Hc].
  split; [reflexivity|]. split.
  - rewrite <- (Hs (Student.mk 0 "Ann" "ann@uni.edu" 20 "" [1; 3])); [reflexivity|].
    left; reflexivity.
  - rewrite <- (Hc (Course.mk 3 "Sets" "CS102" 4 "Cantor" [0; 2])); [reflexivity|].
    right; left; reflexivity.
Defined.

Lemma completed_consistent E st : completed E st -> consistent st.
Proof.
  induction 1 as [|st user m v st' Hd IH He]; [apply consistent_empty|].
  apply (consistent_execute E user m st v st' He); [|exact IH].
  now apply (reachable_idsIssued E), completed_reachable.
Qed.

(** X7. In a store reached through completed mutations the two list
    fields mirror each other: a stored course is among the courses a
    stored student resolves to exactly when that student is among the
    students the course resolves to. *)
Theorem resolved_lists_mirror E st :
  completed E st ->
  forall s c, In s (studentDocs st) -> In c (courseDocs st) ->
    (In c (Student_courses s st) <-> In s (Course_students c st)).
Proof.
  intros H s c Hs Hc.
  pose proof (completed_consistent E st H s c Hs Hc) as Hk.
  rewrite In_Student_courses, In_Course_students. tauto.
Qed.

Lemma resolved_lists_mirror_campus :
  In (Course.mk 1 "Logic" "CS101" 3 "Turing" [0])
     (Student_courses (Student.mk 0 "Ann" "ann@uni.edu" 20 "" [1]) campus)
  <-> In (Student.mk 0 "Ann" "ann@uni.edu" 20 "" [1])
         (Course_students (Course.mk 1 "Logic" "CS101" 3 "Turing" [0]) campus).
Proof.
  apply (resolved_lists_mirror refEnv campus campus_completed); left; reflexivity.
Defined.

(** ** Unique email and code *)

Lemma NoDup_map_eq (A K : Type) (key : A -> K) l x y :
  NoDup (map key l) -> In x l -> In y l -> key x = key y -> x = y.
Proof.
  induction l as [|a l IH]; simpl; [contradiction|].
  intros H Hx Hy e. inversion H as [|k ks Hn Hd]; subst.
  destruct Hx as [<-|Hx], Hy as [<-|Hy]; auto.
  - exfalso. apply Hn. rewrite e. now apply in_map.
  - exfalso. apply Hn. rewrite <- e. now apply in_map.
Qed.

(** Replacing the document of one id keeps a key unique when no document
    of another id holds the new key. *)
Lemma NoDup_key_write (A K : Type) (id : A -> Id) (key : A -> K) (s' : A) l :
  NoDup (map id l) -> NoDup (map key l) ->
  (forall d, In d l -> id d <> id s' -> key d <> key s') ->
  NoDup (map key (map (fun d => if id d =? id s' then s' else d) l)).
Proof.
  induction l as [|a l IH]; simpl; [constructor|].
  intros Hi Hk Hf.
  inversion Hi as [|i0 is0 Hni Hdi]; inversion Hk as [|k0 ks0 Hnk Hdk]; subst.
  assert (IHl := IH Hdi Hdk (fun d Hd => Hf d (or_intror Hd))).
  destruct (Nat.eqb_spec (id a) (id s')) as [e|ne].
  - assert (Hsame : map (fun d => if id d =? id s' then s' else d) l = l).
    { rewrite <- (map_id l) at 2. apply map_ext_in. intros d Hd.
      destruct (Nat.eqb_spec (id d) (id s')) as [e'|]; [|reflexivity].
      exfalso. apply Hni. rewrite e, <- e'. now apply in_map. }
    rewrite Hsame. constructor; [|exact Hdk].
    intros Hin. apply in_map_iff in Hin. destruct Hin as [d [ek Hd]].
    apply (Hf d (or_intror Hd)); [|exact ek].
    intros e'. apply Hni. rewrite e, <- e'. now apply in_map.
  - constructor; [|exact IHl].
    intros Hin. apply in_map_iff in Hin. destruct Hin as [x [ek Hx]].
    apply in_map_iff in Hx. destruct Hx as [d [ex Hd]].
    destruct (Nat.eqb_spec (id d) (id s')); subst x.
    + now apply (Hf a (or_introl eq_refl) ne).
    + apply Hnk. rewrite <- ek. now apply in_map.
Qed.

Lemma keys_writeStudent st s s' :
  uniqueIds st -> uniqueKeys st -> In s (studentDocs st) ->
  Student.id s' = Student.id s ->
  (forall d, In d (studentDocs st) -> Student.id d <> Student.id s ->
     Student.email d <> Student.email s') ->
  uniqueKeys (writeStudent s' st).
Proof.
  intros [Us _] [Ks Kc] Hs ei Hf. split; [|exact Kc]. simpl.
  apply NoDup_key_write; try assumption.
  intros d Hd ne. apply Hf; [exact Hd | congruence].
Qed.

Lemma keys_writeCourse st c c' :
  uniqueIds st -> uniqueKeys st -> In c (courseDocs st) ->
  Course.id c' = Course.id c ->
  (forall d, In d (courseDocs st) -> Course.id d <> Course.id c ->
     Course.code d <> Course.code c') ->
  uniqueKeys (writeCourse c' st).
Proof.
  intros [_ Uc] [Ks Kc] Hc ei Hf. split; [exact Ks|]. simpl.
  apply NoDup_key_write; try assumption.
  intros d Hd ne. apply Hf; [exact Hd | congruence].
Qed.

(** A write that leaves the key as it was. *)
Lemma keys_writeStudent_same st s s' :
  uniqueIds st -> uniqueKeys st -> In s (studentDocs st) ->
  Student.id s' = Student.id s -> Student.email s' = Student.email s ->
  uniqueKeys (writeStudent s' st).
Proof.
  intros U K Hs ei ee. apply keys_writeStudent with (s:=s); try assumption.
  intros d Hd ne e. apply ne. f_equal.
  apply (NoDup_map_eq _ _ Student.email (studentDocs st)); [exact (proj1 K) | | | congruence];
    assumption.
Qed.

Lemma keys_writeCourse_same st c c' :
  uniqueIds st -> uniqueKeys st -> In c (courseDocs st) ->
  Course.id c' = Course.id c -> Course.code c' = Course.code c ->
  uniqueKeys (writeCourse c' st).
Proof.
  intros U K Hc ei ee. apply keys_writeCourse with (c:=c); try assumption.
  intros d Hd ne e. apply ne. f_equal.
  apply (NoDup_map_eq _ _ Course.code (courseDocs st)); [exact (proj2 K) | | | congruence];
    assumption.
Qed.

Lemma NoDup_snoc (A : Type) (l : list A) x : NoDup l -> ~ In x l -> NoDup (l ++ [x]).
Proof.
  intros H Hx. apply NoDup_rev in H. rewrite <- (rev_involutive (l ++ [x])).
  apply NoDup_rev. rewrite rev_app_distr. simpl. constructor; [|exact H].
  intros Hi. apply Hx. now apply in_rev.
Qed.

Lemma keys_insertStudent input st :
  uniqueKeys st -> uniqueKeys (snd (insertStudent input st)).
Proof.
  intros [Ks Kc]. unfold insertStudent.
  destruct (newStudent (nextId st) input) as [s|]; [|now split].
  destruct (existsb _ _) eqn:e; [now split|]. split; [|exact Kc]. simpl.
  rewrite map_app. simpl. apply NoDup_snoc; [exact Ks|].
  intros Hin. apply in_map_iff in Hin. destruct Hin as [d [ek Hd]].
  assert (existsb (fun d => (Student.email d =? Student.email s)%string) (studentDocs st) = true).
  { apply existsb_exists. exists d. split; [exact Hd | now apply String.eqb_eq]. }
  congruence.
Qed.

Lemma keys_insertCourse input st :
  uniqueKeys st -> uniqueKeys (snd (insertCourse input st)).
Proof.
  intros [Ks Kc]. unfold insertCourse.
  destruct (newCourse (nextId st) input) as [c|]; [|now split].
  destruct (existsb _ _) eqn:e; [now split|]. split; [exact Ks|]. simpl.
  rewrite map_app. simpl. apply NoDup_snoc; [exact Kc|].
  intros Hin. apply in_map_iff in Hin. destruct Hin as [d [ek Hd]].
  assert (existsb (fun d => (Course.code d =? Course.code c)%string) (courseDocs st) = true).
  { apply existsb_exists. exists d. split; [exact Hd | now apply String.eqb_eq]. }
  congruence.
Qed.

Lemma keys_deleteStudent i st :
  uniqueKeys st -> uniqueKeys (deleteStudentDoc i (pullStudentEverywhere i st)).
Proof.
  intros [Ks Kc]. split; simpl; [now apply NoDup_map_filter|].
  rewrite map_map. exact Kc.
Qed.

Lemma keys_deleteCourse i st :
  uniqueKeys st -> uniqueKeys (deleteCourseDoc i (pullCourseEverywhere i st)).
Proof.
  intros [Ks Kc]. split; simpl; [|now apply NoDup_map_filter].
  rewrite map_map. exact Ks.
Qed.

Lemma keys_saveBoth st s c cs' ss' :
  uniqueIds st -> uniqueKeys st -> In s (studentDocs st) -> In c (courseDocs st) ->
  uniqueKeys (snd (saveBoth (Student.setCourses cs' s) (Course.setStudents ss' c) st)).
Proof.
  intros U K Hs Hc. unfold saveBoth.
  destruct (validStudent _); [|exact K].
  assert (K1 : uniqueKeys (writeStudent (Student.setCourses cs' s) st))
    by (apply keys_writeStudent_same with (s:=s); auto).
  destruct (validCourse _); [|exact K1]. simpl.
  apply keys_writeCourse_same with (c:=c); auto.
  split; [rewrite map_id_writeStudent; exact (proj1 U) | exact (proj2 U)].
Qed.

(** What a completed [findByIdAndUpdate] has checked. *)
Lemma updateStudent_written user i input st :
  snd (updateStudent user i input st) = st
  \/ exists s, findStudent i (studentDocs st) = Some s
               /\ emailTaken i (in_email input) (studentDocs st) = false
               /\ snd (updateStudent user i input st) = writeStudent (patchStudent input s) st.
Proof.
  unfold updateStudent, findStudentByIdAndUpdate. destruct user as [u|]; [|now left].
  destruct (truthyStr (in_email input) && _); [now left|].
  destruct (findStudent i (studentDocs st)) as [s|] eqn:Hs; [|now left].
  destruct (emailTaken i (in_email input) (studentDocs st)) eqn:e; [now left|].
  right. now exists s.
Qed.

Lemma updateCourse_written user i input st :
  snd (updateCourse user i input st) = st
  \/ exists c, findCourse i (courseDocs st) = Some c
               /\ codeTaken i (up_code input) (courseDocs st) = false
               /\ snd (updateCourse user i input st) = writeCourse (patchCourse input c) st.
Proof.
  unfold updateCourse, findCourseByIdAndUpdate. destruct user as [u|]; [|now left].
  destruct (findCourse i (courseDocs st)) as [c|] eqn:Hc; [|now left].
  destruct (codeTaken i (up_code input) (courseDocs st)) eqn:e; [now left|].
  right. now exists c.
Qed.

Lemma keys_updateStudent user i input st :
  uniqueIds st -> uniqueKeys st -> uniqueKeys (snd (updateStudent user i input st)).
Proof.
  intros U K.
  destruct (updateStudent_written user i input st) as [->|(s & Hs & Ht & ->)]; [exact K|].
  destruct (findStudent_some _ _ _ Hs) as [Is es].
  destruct (in_email input) as [e|] eqn:ee.
  - apply keys_writeStudent with (s:=s); try assumption; [reflexivity|].
    intros d Hd ne ek. simpl in ek. rewrite ee in ek. simpl in ek, Ht.
    assert (existsb (fun d => negb (Student.id d =? i) && (Student.email d =? e)%string)
              (studentDocs st) = true); [|congruence].
    apply existsb_exists. exists d. split; [exact Hd|].
    apply andb_true_iff. split; [|now apply String.eqb_eq].
    apply negb_true_iff, Nat.eqb_neq. congruence.
  - apply keys_writeStudent_same with (s:=s); try assumption; [reflexivity|].
    simpl. now rewrite ee.
Qed.

Lemma keys_updateCourse user i input st :
  uniqueIds st -> uniqueKeys st -> uniqueKeys (snd (updateCourse user i input st)).
Proof.
  intros U K.
  destruct (updateCourse_written user i input st) as [->|(c & Hc & Ht & ->)]; [exact K|].
  destruct (findCourse_some _ _ _ Hc) as [Ic ec].
  destruct (up_code input) as [e|] eqn:ee.
  - apply keys_writeCourse with (c:=c); try assumption; [reflexivity|].
    intros d Hd ne ek. simpl in ek. rewrite ee in ek. simpl in ek, Ht.
    assert (existsb (fun d => negb (Course.id d =? i) && (Course.code d =? e)%string)
              (courseDocs st) = true); [|congruence].
    apply existsb_exists. exists d. split; [exact Hd|].
    apply andb_true_iff. split; [|now apply String.eqb_eq].
    apply negb_true_iff, Nat.eqb_neq. congruence.
  - apply keys_writeCourse_same with (c:=c); try assumption; [reflexivity|].
    simpl. now rewrite ee.
Qed.

Lemma keys_execute E user m st :
  uniqueIds st -> uniqueKeys st -> uniqueKeys (snd (execute E user m st)).
Proof.
  intros U K. destruct m; simpl; rewrite snd_lift.
  - destruct (addStudent_store E user input st) as [->| ->];
      [exact K | now apply keys_insertStudent].
  - now apply keys_updateStudent.
  - destruct (deleteStudent_store user i st) as [->| ->];
      [exact K | now apply keys_deleteStudent].
  - destruct (addCourse_store E user input st) as [->| ->];
      [exact K | now apply keys_insertCourse].
  - now apply keys_updateCourse.
  - destruct (deleteCourse_store user i st) as [->| ->];
      [exact K | now apply keys_deleteCourse].
  - destruct user as [u|]; [|exact K].
    destruct (findStudent (objectId studentId) (studentDocs st)) as [s|] eqn:Hs;
      [|now rewrite enrollStudent_missing by (now left)].
    destruct (findCourse (objectId courseId) (courseDocs st)) as [c|] eqn:Hc;
      [|now rewrite enrollStudent_missing by (now right)].
    rewrite (enrollStudent_found u _ _ _ _ _ Hs Hc).
    apply keys_saveBoth; try assumption;
      [exact (proj1 (findStudent_some _ _ _ Hs)) | exact (proj1 (findCourse_some _ _ _ Hc))].
  - destruct user as [u|]; [|exact K].
    destruct (findStudent studentId (studentDocs st)) as [s|] eqn:Hs;
      [|now rewrite unenrollStudent_missing by (now left)].
    destruct (findCourse courseId (courseDocs st)) as [c|] eqn:Hc;
      [|now rewrite unenrollStudent_missing by (now right)].
    rewrite (unenrollStudent_found u _ _ _ _ _ Hs Hc).
    apply keys_saveBoth; try assumption;
      [exact (proj1 (findStudent_some _ _ _ Hs)) | exact (proj1 (findCourse_some _ _ _ Hc))].
Qed.

(** X8. In every store the mutations can bring about, no two students
    hold the same email and no two courses the same code.  The schemas of
    [src/models] declare both fields [unique]; the index that declares
    refuses the insert and the update that would repeat a value, and no
    other write of the resolvers touches the two fields. *)
Theorem reachable_unique_email_and_code E st : reachable E st -> uniqueKeys st.
Proof.
  induction 1 as [|st user m Hr IH]; [split; constructor|].
  apply keys_execute; [exact (proj1 (reachable_shape E st Hr)) | exact IH].
Qed.

(** In [faculty], with two students and two courses, an update that would
    give Bob the email of Ann is refused, and so is one that would give
    the second course the code of the first; the emails and the codes
    stay distinct. *)
Lemma reachable_unique_email_and_code_faculty :
  fst (execute refEnv (Some alice)
         (UpdateStudent 2 (mkStudentInput None (Some "ann@uni.edu") None None)) faculty)
    = Err DuplicateKey
  /\ fst (execute refEnv (Some alice)
            (UpdateCourse 3 (mkCourseUpdateInput None (Some "CS101") None None)) faculty)
     = Err DuplicateKey
  /\ map Student.email
       (studentDocs
          (runAll [ UpdateStudent 2 (mkStudentInput None (Some "ann@uni.edu") None None);
                    UpdateCourse 3 (mkCourseUpdateInput None (Some "CS101") None None);
                    UpdateStudent 2 (mkStudentInput None (Some "rob@uni.edu") None None) ]
             faculty))
     = ["ann@uni.edu"; "rob@uni.edu"]
  /\ NoDup ["ann@uni.edu"; "rob@uni.edu"]
  /\ NoDup ["CS101"; "CS102"].
Proof.
  split; [reflexivity|]. split; [reflexivity|]. split; [reflexivity|].
  exact (reachable_unique_email_and_code refEnv
           (runAll [ UpdateStudent 2 (mkStudentInput None (Some "ann@uni.edu") None None);
                     UpdateCourse 3 (mkCourseUpdateInput None (Some "CS101") None None);
                     UpdateStudent 2 (mkStudentInput None (Some "rob@uni.edu") None None) ]
              faculty)
           (runAll_reachable _ faculty (printed_reachable refEnv faculty faculty_printed))).
Defined.

(** ** Enrollment and validation *)

(** X9. A student document that fails validation can be neither enrolled
    nor unenrolled: with both ids resolving, either call is refused at
    the first [save] and the store stays as it was. *)
Theorem invalid_student_blocks_enrollment u sid cid st s c :
  findStudent (objectId sid) (studentDocs st) = Some s ->
  findCourse (objectId cid) (courseDocs st) = Some c ->
  validStudent s = false ->
  enrollStudent (Some u) sid cid st = (Err ValidationError, st)
  /\ unenrollStudent (Some u) (objectId sid) (objectId cid) st = (Err ValidationError, st).
Proof.
  intros Hs Hc V. split.
  - rewrite (enrollStudent_found u _ _ _ _ _ Hs Hc). unfold saveBoth.
    now rewrite validStudent_setCourses, V.
  - rewrite (unenrollStudent_found u _ _ _ _ _ Hs Hc). unfold saveBoth.
    now rewrite validStudent_setCourses, V.
Qed.

Lemma invalid_student_blocks_enrollment_underage :
  enrollStudent (Some alice) (hex 0) (hex 1) underage = (Err ValidationError, underage)
  /\ unenrollStudent (Some alice) 0 1 underage = (Err ValidationError, underage).
Proof.
  exact (invalid_student_blocks_enrollment alice (hex 0) (hex 1) underage _ _
           eq_refl eq_refl eq_refl).
Defined.

(** X10. When the student passes validation and the course does not,
    [enrollStudent] fails after the student was written: a read finds the
    student with the course id and the course as it was, so a course that
    did not list the student leaves the two sides in disagreement. *)
Theorem enrollStudent_first_write_stays u sid cid st s c :
  findStudent (objectId sid) (studentDocs st) = Some s ->
  findCourse (objectId cid) (courseDocs st) = Some c ->
  validStudent s = true -> validCourse c = false ->
  exists st',
    enrollStudent (Some u) sid cid st = (Err ValidationError, st')
    /\ findStudent (objectId sid) (studentDocs st')
       = Some (Student.setCourses (pushUnique cid (Student.courses s)) s)
    /\ findCourse (objectId cid) (courseDocs st') = Some c
    /\ (~ In (objectId sid) (Course.students c) -> ~ consistent st').
Proof.
  intros Hs Hc Vs Vc.
  destruct (findStudent_some _ _ _ Hs) as [Is es].
  destruct (findCourse_some _ _ _ Hc) as [Ic ec].
  set (s' := Student.setCourses (pushUnique cid (Student.courses s)) s).
  exists (writeStudent s' st). split.
  { rewrite (enrollStudent_found u _ _ _ _ _ Hs Hc). unfold saveBoth.
    now rewrite validStudent_setCourses, validCourse_setStudents, Vs, Vc. }
  assert (Hf : findStudent (objectId sid) (studentDocs (writeStudent s' st)) = Some s')
    by (apply findStudent_saved with (s:=s); [exact Hs | exact es]).
  split; [exact Hf|]. split; [exact Hc|].
  intros Hn Hk.
  apply Hn. rewrite <- es.
  apply (Hk s' c (proj1 (findStudent_some _ _ _ Hf)) Ic).
  rewrite ec. apply In_pushUnique. now left.
Qed.

Lemma enrollStudent_first_write_stays_overloaded :
  exists st',
    enrollStudent (Some alice) (hex 0) (hex 1) overloaded = (Err ValidationError, st')
    /\ findStudent 0 (studentDocs st') = Some (Student.mk 0 "Ann" "ann@uni.edu" 20 "" [1])
    /\ findCourse 1 (courseDocs st') = Some (Course.mk 1 "Logic" "CS101" 7 "Turing" []).
Proof.
  destruct (enrollStudent_first_write_stays alice (hex 0) (hex 1) overloaded _ _
              eq_refl eq_refl eq_refl eq_refl) as (st' & He & Hs & Hc & _).
  exists st'. now repeat split.
Defined.

(** *** Unenroll after enroll *)

Lemma writeStudent_present st s :
  NoDup (map Student.id (studentDocs st)) -> In s (studentDocs st) ->
  writeStudent s st = st.
Proof.
  intros U Hs. destruct st as [ss cs n]. unfold writeStudent. simpl in *. f_equal.
  rewrite <- (map_id ss) at 2. apply map_ext_in. intros d Hd.
  destruct (Nat.eqb_spec (Student.id d) (Student.id s)) as [e|]; [|reflexivity].
  symmetry. now apply (NoDup_map_eq _ _ Student.id ss).
Qed.

Lemma writeCourse_present st c :
  NoDup (map Course.id (courseDocs st)) -> In c (courseDocs st) ->
  writeCourse c st = st.
Proof.
  intros U Hc. destruct st as [ss cs n]. unfold writeCourse. simpl in *. f_equal.
  rewrite <- (map_id cs) at 2. apply map_ext_in. intros d Hd.
  destruct (Nat.eqb_spec (Course.id d) (Course.id c)) as [e|]; [|reflexivity].
  symmetry. now apply (NoDup_map_eq _ _ Course.id cs).
Qed.

Lemma writeStudent_over s s' st :
  Student.id s = Student.id s' -> writeStudent s (writeStudent s' st) = writeStudent s st.
Proof.
  intros e. unfold writeStudent. simpl. f_equal. rewrite map_map. apply map_ext.
  intros d. destruct (Nat.eqb_spec (Student.id d) (Student.id s')) as [ed|ne];
    [|reflexivity].
  now rewrite ed, <- e, Nat.eqb_refl.
Qed.

Lemma writeCourse_over c c' st :
  Course.id c = Course.id c' -> writeCourse c (writeCourse c' st) = writeCourse c st.
Proof.
  intros e. unfold writeCourse. simpl. f_equal. rewrite map_map. apply map_ext.
  intros d. destruct (Nat.eqb_spec (Course.id d) (Course.id c')) as [ed|ne];
    [|reflexivity].
  now rewrite ed, <- e, Nat.eqb_refl.
Qed.

Lemma pull_pushUnique x l :
  ~ In (objectId x) l -> pull (objectId x) (pushUnique x l) = l.
Proof.
  intros H. unfold pushUnique.
  replace (arrayIncludes x l) with false
    by (symmetry; apply not_true_is_false; intros e; apply arrayIncludes_In in e;
        contradiction).
  unfold pull. rewrite filter_app. simpl. rewrite Nat.eqb_refl. simpl.
  rewrite app_nil_r. now apply pull_absent.
Qed.

(** X11. In a store the mutations can bring about, enrolling a pair that
    was not enrolled and unenrolling it again gives back the store as it
    was, provided both documents pass validation; the spelling of the
    ids in the enrollment makes no difference. *)
Theorem unenroll_undoes_enroll E u sid cid st s c :
  reachable E st ->
  findStudent (objectId sid) (studentDocs st) = Some s ->
  findCourse (objectId cid) (courseDocs st) = Some c ->
  validStudent s = true -> validCourse c = true ->
  ~ In (objectId cid) (Student.courses s) -> ~ In (objectId sid) (Course.students c) ->
  snd (unenrollStudent (Some u) (objectId sid) (objectId cid)
         (snd (enrollStudent (Some u) sid cid st))) = st.
Proof.
  intros Hr Hs Hc Vs Vc Ns Nc.
  destruct (reachable_shape E st Hr) as ([Us Uc] & _).
  destruct (findStudent_some _ _ _ Hs) as [Is es].
  destruct (findCourse_some _ _ _ Hc) as [Ic ec].
  set (s' := Student.setCourses (pushUnique cid (Student.courses s)) s).
  set (c' := Course.setStudents (pushUnique sid (Course.students c)) c).
  assert (He : snd (enrollStudent (Some u) sid cid st) = writeCourse c' (writeStudent s' st)).
  { rewrite (enrollStudent_found u _ _ _ _ _ Hs Hc). unfold saveBoth.
    now rewrite validStudent_setCourses, validCourse_setStudents, Vs, Vc. }
  rewrite He.
  assert (Hs' : findStudent (objectId sid)
                  (studentDocs (writeCourse c' (writeStudent s' st))) = Some s')
    by (apply findStudent_saved with (s:=s); [exact Hs | exact es]).
  assert (Hc' : findCourse (objectId cid)
                  (courseDocs (writeCourse c' (writeStudent s' st))) = Some c').
  { rewrite writeCourse_writeStudent.
    apply findCourse_saved with (c:=c); [exact Hc | exact ec]. }
  rewrite (unenrollStudent_found u _ _ _ _ _ Hs' Hc').
  assert (Es : Student.setCourses (pull (objectId cid) (Student.courses s')) s' = s).
  { unfold s'. simpl. rewrite pull_pushUnique by exact Ns. now destruct s. }
  assert (Ec : Course.setStudents (pull (objectId sid) (Course.students c')) c' = c).
  { unfold c'. simpl. rewrite pull_pushUnique by exact Nc. now destruct c. }
  rewrite Es, Ec. unfold saveBoth. rewrite Vs, Vc. cbn [snd].
  rewrite (writeCourse_writeStudent c s).
  rewrite writeCourse_over by reflexivity.
  rewrite <- writeCourse_writeStudent.
  rewrite writeStudent_over by reflexivity.
  rewrite (writeStudent_present st s Us Is).
  now apply writeCourse_present.
Qed.

Lemma unenroll_undoes_enroll_registered :
  snd (unenrollStudent (Some alice) 0 1
         (snd (enrollStudent (Some alice) (hex 0) (upperHex 1) registered)))
    = registered.
Proof.
  refine (unenroll_undoes_enroll refEnv alice (hex 0) (upperHex 1) registered _ _ _
            eq_refl eq_refl eq_refl eq_refl _ _).
  - apply (reach_step refEnv
             (runAll [AddStudent (studentInput "Ann" "ann@uni.edu" 20)] emptyStore)
             (Some alice) (AddCourse (mkCourseInput "Logic" "CS101" 3 "Turing"))).
    apply (reach_step refEnv emptyStore (Some alice)
             (AddStudent (studentInput "Ann" "ann@uni.edu" 20))).
    apply reach_empty.
  - simpl. tauto.
  - simpl. tauto.
Defined.

(** ** What a mutation leaves alone *)

Ltac innermost_cases :=
  repeat (match goal with
          | |- context [match ?x with _ => _ end] =>
              lazymatch x with
              | context [match _ with _ => _ end] => fail
              | _ => destruct x
              end
          end; simpl).

(** X12. A mutation that fails has changed nothing, with one exception:
    an enroll or unenroll refused by a validator, which may have written
    the student already.  Every other failure, of any of the eight
    mutations, returns the store it was given. *)
Theorem failed_mutation_keeps_store E user m st e st' :
  execute E user m st = (Err e, st') ->
  match m with
  | EnrollStudent _ _ | UnenrollStudent _ _ => e <> ValidationError
  | _ => True
  end ->
  st' = st.
Proof.
  destruct m; simpl.
  - unfold addStudent, insertStudent. innermost_cases; intros [= ]; now subst.
  - unfold updateStudent, findStudentByIdAndUpdate.
    innermost_cases; intros [= ]; now subst.
  - unfold deleteStudent. innermost_cases; intros [= ]; now subst.
  - unfold addCourse, insertCourse. innermost_cases; intros [= ]; now subst.
  - unfold updateCourse, findCourseByIdAndUpdate.
    innermost_cases; intros [= ]; now subst.
  - unfold deleteCourse. innermost_cases; intros [= ]; now subst.
  - unfold enrollStudent, saveStudent, saveCourse.
    innermost_cases; intros [= ]; subst; intros H; congruence.
  - unfold unenrollStudent, saveStudent, saveCourse.
    innermost_cases; intros [= ]; subst; intros H; congruence.
Qed.

Lemma failed_mutation_keeps_store_campus :
  snd (execute refEnv (Some alice) (EnrollStudent (hex 0) (hex 7)) campus) = campus
  /\ snd (execute refEnv (Some alice)
            (AddCourse (mkCourseInput "Logic II" "cs101" 3 "Turing")) campus) = campus.
Proof.
  split.
  - apply (failed_mutation_keeps_store refEnv (Some alice) (EnrollStudent (hex 0) (hex 7)) campus
             InvalidIDs); [reflexivity | discriminate].
  - apply (failed_mutation_keeps_store refEnv (Some alice)
             (AddCourse (mkCourseInput "Logic II" "cs101" 3 "Turing")) campus
             CourseCodeExists); [reflexivity | exact I].
Defined.

(** *** Adding a document *)

Lemma findStudent_app i l s :
  findStudent i (l ++ [s])
    = match findStudent i l with
      | Some d => Some d
      | None => if Student.id s =? i then Some s else None
      end.
Proof.
  unfold findStudent. induction l as [|d l IH]; simpl; [reflexivity|].
  now destruct (Student.id d =? i).
Qed.

Lemma findCourse_app i l c :
  findCourse i (l ++ [c])
    = match findCourse i l with
      | Some d => Some d
      | None => if Course.id c =? i then Some c else None
      end.
Proof.
  unfold findCourse. induction l as [|d l IH]; simpl; [reflexivity|].
  now destruct (Course.id d =? i).
Qed.

Lemma findStudent_unissued i l n :
  (forall s, In s l -> Student.id s < n) -> n <= i -> findStudent i l = None.
Proof.
  intros H Hi. destruct (findStudent i l) as [s|] eqn:e; [|reflexivity].
  apply findStudent_some in e. destruct e as [Hs <-]. specialize (H s Hs). lia.
Qed.

Lemma findCourse_unissued i l n :
  (forall c, In c l -> Course.id c < n) -> n <= i -> findCourse i l = None.
Proof.
  intros H Hi. destruct (findCourse i l) as [c|] eqn:e; [|reflexivity].
  apply findCourse_some in e. destruct e as [Hc <-]. specialize (H c Hc). lia.
Qed.

(** X13. When [addStudent] succeeds in a store the mutations can bring
    about, the student it returns has a new id, no courses, an email with
    an at-sign, an age of at least 16 and a name; a read by that id finds
    it, every other read finds what it found before, and the courses are
    untouched. *)
Theorem addStudent_stores_new_student E user input st s st' :
  reachable E st ->
  addStudent E user input st = (Ok s, st') ->
  Student.id s = nextId st
  /\ Student.courses s = []
  /\ includes "@" (Student.email s) = true
  /\ (16 <= Student.age s)%Z
  /\ Student.name s <> ""
  /\ findStudent (Student.id s) (studentDocs st') = Some s
  /\ findStudent (Student.id s) (studentDocs st) = None
  /\ (forall i, i <> Student.id s ->
        findStudent i (studentDocs st') = findStudent i (studentDocs st))
  /\ courseDocs st' = courseDocs st.
Proof.
  intros Hr. pose proof (reachable_idsIssued E st Hr) as [Is _].
  unfold addStudent. destruct user as [u|]; [|discriminate].
  destruct (in_email input) as [e|] eqn:ee; [|discriminate].
  destruct (includes "@" e) eqn:ea; [|discriminate]. simpl.
  destruct (match in_age input with Some a => (a <? 16)%Z | None => false end);
    [discriminate|].
  destruct (existsb _ _); [discriminate|].
  unfold insertStudent.
  destruct (newStudent (nextId st) input) as [s0|] eqn:en; [|discriminate].
  destruct (existsb _ _); [discriminate|]. intros [= <- <-]. simpl.
  destruct (newStudent_fresh _ _ _ en) as [ei ec].
  assert (Hnone : findStudent (nextId st) (studentDocs st) = None)
    by (apply findStudent_unissued with (n:=nextId st);
        [intros d Hd; exact (proj1 (Is d Hd)) | lia]).
  unfold newStudent in en. rewrite ee in en.
  destruct (in_name input) as [n|]; [|discriminate].
  destruct (in_age input) as [a|]; [|discriminate]. simpl in en.
  destruct (validStudent _) eqn:ev; [|discriminate].
  injection en as <-. simpl in *.
  unfold validStudent in ev. simpl in ev. rewrite !andb_true_iff in ev.
  destruct ev as [[Hn _] Ha].
  repeat split; try assumption.
  - now apply Z.leb_le.
  - intros ->. discriminate Hn.
  - rewrite findStudent_app, Hnone. simpl. now rewrite Nat.eqb_refl.
  - intros i ne. rewrite findStudent_app.
    destruct (findStudent i (studentDocs st)); [reflexivity|]. simpl.
    destruct (Nat.eqb_spec (nextId st) i); [congruence | reflexivity].
Qed.

Lemma addStudent_stores_new_student_campus :
  exists s st',
    addStudent refEnv (Some alice) (studentInput "Bob" "bob@uni.edu" 19) campus = (Ok s, st')
    /\ Student.id s = 2
    /\ findStudent 2 (studentDocs st') = Some s
    /\ findStudent 0 (studentDocs st') = findStudent 0 (studentDocs campus).
Proof.
  eexists _, _. split; [reflexivity|].
  destruct (addStudent_stores_new_student refEnv (Some alice)
              (studentInput "Bob" "bob@uni.edu" 19) campus _ _ campus_reachable eq_refl)
    as (Hi & _ & _ & _ & _ & Hf & _ & Ho & _).
  split; [exact Hi|]. split; [exact Hf|]. apply Ho. discriminate.
Defined.

(** X14. When [addCourse] succeeds in a store the mutations can bring
    about, the course it returns has a new id, no students, credits from
    1 to 6 and a title, a code and an instructor; a read by that id finds
    it, every other read finds what it found before, and the students are
    untouched. *)
Theorem addCourse_stores_new_course E user input st c st' :
  reachable E st ->
  addCourse E user input st = (Ok c, st') ->
  Course.id c = nextId st
  /\ Course.students c = []
  /\ (1 <= Course.credits c <= 6)%Z
  /\ Course.title c <> "" /\ Course.code c <> "" /\ Course.instructor c <> ""
  /\ findCourse (Course.id c) (courseDocs st') = Some c
  /\ findCourse (Course.id c) (courseDocs st) = None
  /\ (forall i, i <> Course.id c ->
        findCourse i (courseDocs st') = findCourse i (courseDocs st))
  /\ studentDocs st' = studentDocs st.
Proof.
  intros Hr. pose proof (reachable_idsIssued E st Hr) as [_ Ic].
  unfold addCourse. destruct user as [u|]; [|discriminate].
  destruct ((in_credits input <? 1) || (6 <? in_credits input))%Z; [discriminate|].
  destruct (existsb _ _); [discriminate|].
  unfold insertCourse, newCourse.
  destruct (validCourse _) eqn:ev; [|discriminate].
  destruct (existsb _ _); [discriminate|]. intros [= <- <-]. simpl.
  assert (Hnone : findCourse (nextId st) (courseDocs st) = None)
    by (apply findCourse_unissued with (n:=nextId st);
        [intros d Hd; exact (proj1 (Ic d Hd)) | lia]).
  unfold validCourse in ev. simpl in ev. rewrite !andb_true_iff in ev.
  destruct ev as [[[[Ht Hc] H1] H6] Hi].
  apply negb_true_iff, String.eqb_neq in Ht, Hc, Hi.
  apply Z.leb_le in H1, H6.
  repeat split; try assumption.
  - rewrite findCourse_app, Hnone. simpl. now rewrite Nat.eqb_refl.
  - intros i ne. rewrite findCourse_app.
    destruct (findCourse i (courseDocs st)); [reflexivity|]. simpl.
    destruct (Nat.eqb_spec (nextId st) i); [congruence | reflexivity].
Qed.

Lemma addCourse_stores_new_course_campus :
  exists c st',
    addCourse refEnv (Some alice) (mkCourseInput "Sets" "CS102" 4 "Cantor") campus = (Ok c, st')
    /\ Course.id c = 2
    /\ findCourse 2 (courseDocs st') = Some c.
Proof.
  eexists _, _. split; [reflexivity|].
  destruct (addCourse_stores_new_course refEnv (Some alice)
              (mkCourseInput "Sets" "CS102" 4 "Cantor") campus _ _ campus_reachable eq_refl)
    as (Hi & _ & _ & _ & _ & _ & Hf & _).
  split; [exact Hi | exact Hf].
Defined.

(** *** Deleting a document *)

Lemma findStudent_other_deleted i j l :
  j <> i -> findStudent j (List.filter (fun s => negb (Student.id s =? i)) l) = findStudent j l.
Proof.
  intros ne. unfold findStudent. induction l as [|d l IH]; simpl; [reflexivity|].
  destruct (Nat.eqb_spec (Student.id d) i) as [e|n]; simpl.
  - destruct (Nat.eqb_spec (Student.id d) j); [congruence | exact IH].
  - now destruct (Student.id d =? j).
Qed.

Lemma findCourse_other_deleted i j l :
  j <> i -> findCourse j (List.filter (fun c => negb (Course.id c =? i)) l) = findCourse j l.
Proof.
  intros ne. unfold findCourse. induction l as [|d l IH]; simpl; [reflexivity|].
  destruct (Nat.eqb_spec (Course.id d) i) as [e|n]; simpl.
  - destruct (Nat.eqb_spec (Course.id d) j); [congruence | exact IH].
  - now destruct (Course.id d =? j).
Qed.

(** X15. [deleteStudent] on an id that does not resolve answers false and
    changes nothing, so a delete repeated right after itself answers
    false; and a delete leaves every other student as a read found it
    before.  [deleteCourse] behaves the same way. *)
Theorem delete_only_the_target u i st :
  (findStudent i (studentDocs st) = None -> deleteStudent (Some u) i st = (Ok false, st))
  /\ deleteStudent (Some u) i (snd (deleteStudent (Some u) i st))
     = (Ok false, snd (deleteStudent (Some u) i st))
  /\ (forall j, j <> i ->
        findStudent j (studentDocs (snd (deleteStudent (Some u) i st)))
          = findStudent j (studentDocs st))
  /\ (findCourse i (courseDocs st) = None -> deleteCourse (Some u) i st = (Ok false, st))
  /\ deleteCourse (Some u) i (snd (deleteCourse (Some u) i st))
     = (Ok false, snd (deleteCourse (Some u) i st))
  /\ (forall j, j <> i ->
        findCourse j (courseDocs (snd (deleteCourse (Some u) i st)))
          = findCourse j (courseDocs st)).
Proof.
  assert (Hs : forall st0, findStudent i (studentDocs st0) = None ->
                           deleteStudent (Some u) i st0 = (Ok false, st0))
    by (intros st0 H; unfold deleteStudent; now rewrite H).
  assert (Hc : forall st0, findCourse i (courseDocs st0) = None ->
                           deleteCourse (Some u) i st0 = (Ok false, st0))
    by (intros st0 H; unfold deleteCourse; now rewrite H).
  split; [apply Hs|]. split; [|split]; [| |split; [apply Hc|split]].
  - apply Hs. unfold deleteStudent.
    destruct (findStudent i (studentDocs st)) as [s|] eqn:e; [|exact e].
    rewrite (proj2 (findStudent_some _ _ _ e)). simpl. apply findStudent_deleted.
  - intros j ne. unfold deleteStudent.
    destruct (findStudent i (studentDocs st)) as [s|] eqn:e; [|reflexivity].
    rewrite (proj2 (findStudent_some _ _ _ e)). simpl.
    now apply findStudent_other_deleted.
  - apply Hc. unfold deleteCourse.
    destruct (findCourse i (courseDocs st)) as [c|] eqn:e; [|exact e].
    rewrite (proj2 (findCourse_some _ _ _ e)). simpl. apply findCourse_deleted.
  - intros j ne. unfold deleteCourse.
    destruct (findCourse i (courseDocs st)) as [c|] eqn:e; [|reflexivity].
    rewrite (proj2 (findCourse_some _ _ _ e)). simpl.
    now apply findCourse_other_deleted.
Qed.

(** X16. The baseline [deleteStudent] removes the document and nothing
    else: a course that listed the student still lists it afterwards,
    and the id it lists no longer resolves. *)
Theorem baseline_delete_leaves_reference i st s c :
  findStudent i (studentDocs st) = Some s ->
  In c (courseDocs st) -> In i (Course.students c) ->
  fst (Baseline.deleteStudent i st) = true
  /\ findStudent i (studentDocs (snd (Baseline.deleteStudent i st))) = None
  /\ In c (courseDocs (snd (Baseline.deleteStudent i st)))
  /\ ~ noDangling (snd (Baseline.deleteStudent i st)).
Proof.
  intros Hs Hc Hi. unfold Baseline.deleteStudent. rewrite Hs.
  rewrite (proj2 (findStudent_some _ _ _ Hs)). simpl.
  split; [reflexivity|]. split; [apply findStudent_deleted|]. split; [exact Hc|].
  intros [_ G]. specialize (G c i Hc Hi). simpl in G.
  apply in_map_iff in G. destruct G as [d [e Hd]]. apply filter_In in Hd.
  destruct Hd as [_ Hd]. apply negb_true_iff, Nat.eqb_neq in Hd. contradiction.
Qed.

Lemma baseline_delete_leaves_reference_campus :
  In 0 (Course.students (Course.mk 1 "Logic" "CS101" 3 "Turing" [0]))
  /\ findStudent 0 (studentDocs (snd (Baseline.deleteStudent 0 campus))) = None
  /\ In (Course.mk 1 "Logic" "CS101" 3 "Turing" [0])
        (courseDocs (snd (Baseline.deleteStudent 0 campus))).
Proof.
  destruct (baseline_delete_leaves_reference 0 campus _
              (Course.mk 1 "Logic" "CS101" 3 "Turing" [0])
              eq_refl (or_introl eq_refl) (or_introl eq_refl)) as (_ & Hn & Hc & _).
  split; [now left|]. now split.
Defined.

(** *** Updating a document *)

Lemma findStudent_other_written j s st :
  j <> Student.id s ->
  findStudent j (studentDocs (writeStudent s st)) = findStudent j (studentDocs st).
Proof.
  intros ne. unfold findStudent, writeStudent. simpl.
  induction (studentDocs st) as [|d l IH]; simpl; [reflexivity|].
  destruct (Nat.eqb_spec (Student.id d) (Student.id s)) as [e|n].
  - destruct (Nat.eqb_spec (Student.id s) j); [congruence|].
    destruct (Nat.eqb_spec (Student.id d) j); [congruence | exact IH].
  - now destruct (Student.id d =? j).
Qed.

Lemma findCourse_other_written j c st :
  j <> Course.id c ->
  findCourse j (courseDocs (writeCourse c st)) = findCourse j (courseDocs st).
Proof.
  intros ne. unfold findCourse, writeCourse. simpl.
  induction (courseDocs st) as [|d l IH]; simpl; [reflexivity|].
  destruct (Nat.eqb_spec (Course.id d) (Course.id c)) as [e|n].
  - destruct (Nat.eqb_spec (Course.id c) j); [congruence|].
    destruct (Nat.eqb_spec (Course.id d) j); [congruence | exact IH].
  - now destruct (Course.id d =? j).
Qed.

(** X17. [updateStudent] on an id that does not resolve fails with
    "Student not found" and changes nothing.  When it succeeds, the
    student it returns is what a read by that id finds; it keeps the id
    and the courses of the stored student and every field the input left
    out; every other student and the courses are untouched. *)
Theorem updateStudent_patches_one_student u i input st :
  (findStudent i (studentDocs st) = None ->
   (truthyStr (in_email input) = true -> includes "@" (orElse (in_email input) "") = true) ->
   updateStudent (Some u) i input st = (Err StudentNotFound, st))
  /\ (forall s' st', updateStudent (Some u) i input st = (Ok s', st') ->
      exists s,
        findStudent i (studentDocs st) = Some s
        /\ findStudent i (studentDocs st') = Some s'
        /\ Student.id s' = i
        /\ Student.courses s' = Student.courses s
        /\ (in_name input = None -> Student.name s' = Student.name s)
        /\ (in_email input = None -> Student.email s' = Student.email s)
        /\ (in_age input = None -> Student.age s' = Student.age s)
        /\ (in_major input = None -> Student.major s' = Student.major s)
        /\ (forall j, j <> i ->
              findStudent j (studentDocs st') = findStudent j (studentDocs st))
        /\ courseDocs st' = courseDocs st).
Proof.
  split.
  - intros Hn He. unfold updateStudent, findStudentByIdAndUpdate. rewrite Hn.
    destruct (truthyStr (in_email input)); [rewrite (He eq_refl)|]; reflexivity.
  - intros s' st'. unfold updateStudent, findStudentByIdAndUpdate.
    destruct (truthyStr (in_email input) && _); [discriminate|].
    destruct (findStudent i (studentDocs st)) as [s|] eqn:Hs; [|discriminate].
    destruct (emailTaken i (in_email input) (studentDocs st)); [discriminate|].
    intros [= <- <-]. exists s.
    destruct (findStudent_some _ _ _ Hs) as [Is es].
    split; [reflexivity|].
    split; [apply findStudent_saved with (s:=s); [exact Hs | exact es]|].
    split; [exact es|]. split; [reflexivity|].
    do 4 (split; [intros e; simpl; now rewrite e|]).
    split; [|reflexivity].
    intros j ne. apply findStudent_other_written. simpl. congruence.
Qed.

Lemma updateStudent_patches_one_student_campus :
  exists s s' st',
    updateStudent (Some alice) 0 (mkStudentInput None None None (Some "Logic")) campus
      = (Ok s', st')
    /\ findStudent 0 (studentDocs campus) = Some s
    /\ Student.major s' = "Logic"
    /\ Student.courses s' = Student.courses s
    /\ Student.age s' = Student.age s.
Proof.
  destruct (proj2 (updateStudent_patches_one_student alice 0
                     (mkStudentInput None None None (Some "Logic")) campus) _ _ eq_refl)
    as (s & Hs & _ & _ & Hc & _ & _ & Ha & _).
  eexists s, _, _. split; [reflexivity|]. split; [exact Hs|]. split; [reflexivity|].
  split; [exact Hc | exact (Ha eq_refl)].
Defined.

(** X18. [updateCourse] on an id that does not resolve fails with "Course
    not found" and changes nothing.  When it succeeds, the course it
    returns is what a read by that id finds; it keeps the id and the
    students of the stored course and every field the input left out;
    every other course and the students are untouched. *)
Theorem updateCourse_patches_one_course u i input st :
  (findCourse i (courseDocs st) = None ->
   updateCourse (Some u) i input st = (Err CourseNotFound, st))
  /\ (forall c' st', updateCourse (Some u) i input st = (Ok c', st') ->
      exists c,
        findCourse i (courseDocs st) = Some c
        /\ findCourse i (courseDocs st') = Some c'
        /\ Course.id c' = i
        /\ Course.students c' = Course.students c
        /\ (up_title input = None -> Course.title c' = Course.title c)
        /\ (up_code input = None -> Course.code c' = Course.code c)
        /\ (up_credits input = None -> Course.credits c' = Course.credits c)
        /\ (up_instructor input = None -> Course.instructor c' = Course.instructor c)
        /\ (forall j, j <> i ->
              findCourse j (courseDocs st') = findCourse j (courseDocs st))
        /\ studentDocs st' = studentDocs st).
Proof.
  split.
  - intros Hn. unfold updateCourse, findCourseByIdAndUpdate. now rewrite Hn.
  - intros c' st'. unfold updateCourse, findCourseByIdAndUpdate.
    destruct (findCourse i (courseDocs st)) as [c|] eqn:Hc; [|discriminate].
    destruct (codeTaken i (up_code input) (courseDocs st)); [discriminate|].
    intros [= <- <-]. exists c.
    destruct (findCourse_some _ _ _ Hc) as [Ic ec].
    split; [reflexivity|].
    split; [apply findCourse_saved with (c:=c); [exact Hc | exact ec]|].
    split; [exact ec|]. split; [reflexivity|].
    do 4 (split; [intros e; simpl; now rewrite e|]).
    split; [|reflexivity].
    intros j ne. apply findCourse_other_written. simpl. congruence.
Qed.

(** ** Queries *)

(** The limit [getAllStudents] and [getAllCourses] pass to the
    cursor: 10 when none is requested or 0 is, the requested one from 1
    to 50, 50 above that, and the requested one when it is negative. *)
Lemma pageLimit_cases options :
  match field options limit with
  | None => pageLimit options = 10%Z
  | Some n =>
      (n = 0 -> pageLimit options = 10)%Z
      /\ (1 <= n <= 50 -> pageLimit options = n)%Z
      /\ (50 < n -> pageLimit options = 50)%Z
      /\ (n < 0 -> pageLimit options = n)%Z
  end.
Proof.
  unfold pageLimit, orInt. destruct (field options limit) as [n|]; [|reflexivity].
  destruct (Z.eqb_spec n 0); repeat split; intros; lia.
Qed.

Lemma matchesStudent_text E filter s :
  matchesStudent E (studentQuery filter) s = true ->
  (forall m, field filter f_major = Some m -> m <> "" -> Student.major s = m)
  /\ (forall p, field filter nameContains = Some p -> p <> "" ->
        regexTest E p true (Student.name s) = true)
  /\ (forall p, field filter emailContains = Some p -> p <> "" ->
        regexTest E p true (Student.email s) = true).
Proof.
  unfold matchesStudent, studentQuery, whenTruthy, truthyStr. simpl.
  rewrite !andb_true_iff. intros [[[Hm Hn] He] _].
  repeat split; intros x e ne; apply String.eqb_neq in ne.
  - rewrite e, ne in Hm. simpl in Hm. now apply String.eqb_eq.
  - rewrite e, ne in Hn. exact Hn.
  - rewrite e, ne in He. exact He.
Qed.

(** X19. Every student [getAllStudents] returns meets each text filter
    that was given and is not empty: its major is the requested one, and
    its name and its email match the requested patterns without regard
    to case. *)
Theorem getAllStudents_meets_text_filters E filter options st l s :
  getAllStudents E filter options st = Ok l -> In s l ->
  (forall m, field filter f_major = Some m -> m <> "" -> Student.major s = m)
  /\ (forall p, field filter nameContains = Some p -> p <> "" ->
        regexTest E p true (Student.name s) = true)
  /\ (forall p, field filter emailContains = Some p -> p <> "" ->
        regexTest E p true (Student.email s) = true).
Proof.
  unfold getAllStudents.
  destruct (cursorSkip _ _) as [l0|] eqn:es; [|discriminate].
  intros [= <-] Hs. apply cursorLimit_incl in Hs.
  apply (cursorSkip_incl _ _ _ _ s es) in Hs.
  assert (Hf : In s (List.filter (matchesStudent E (studentQuery filter)) (studentDocs st))).
  { destruct (whenTruthy (field options sortBy)); [|exact Hs].
    eapply Permutation_in; [apply sortStudents_perm | exact Hs]. }
  apply filter_In in Hf. now apply matchesStudent_text.
Qed.

Lemma getAllStudents_meets_text_filters_campus :
  getAllStudents refEnv (Some (mkStudentFilter None (Some "NN") None None None)) None campus
    = Ok [Student.mk 0 "Ann" "ann@uni.edu" 20 "" [1]]
  /\ literalRegex "NN" true "Ann" = true.
Proof.
  assert (H : getAllStudents refEnv (Some (mkStudentFilter None (Some "NN") None None None))
                None campus = Ok [Student.mk 0 "Ann" "ann@uni.edu" 20 "" [1]])
    by reflexivity.
  destruct (getAllStudents_meets_text_filters refEnv _ None campus _ _ H (or_introl eq_refl))
    as (_ & Hn & _).
  split; [exact H|]. apply (Hn "NN" eq_refl). discriminate.
Defined.

Lemma matchesCourse_sound E filter c :
  matchesCourse E (courseQuery filter) c = true ->
  (forall i, field filter f_instructor = Some i -> i <> "" -> Course.instructor c = i)
  /\ (forall p, field filter titleContains = Some p -> p <> "" ->
        regexTest E p true (Course.title c) = true)
  /\ (forall p, field filter codePrefix = Some p -> p <> "" ->
        regexTest E ("^" ++ p) true (Course.code c) = true)
  /\ (forall m, field filter minCredits = Some m -> m <> 0%Z -> (m <= Course.credits c)%Z)
  /\ (forall m, field filter maxCredits = Some m -> m <> 0%Z -> (Course.credits c <= m)%Z).
Proof.
  unfold matchesCourse, courseQuery, whenTruthy, truthyStr. simpl.
  rewrite !andb_true_iff. intros [[[Ht Hc] Hi] Hr].
  split; [|split; [|split]].
  - intros x e ne. apply String.eqb_neq in ne. rewrite e, ne in Hi. simpl in Hi.
    now apply String.eqb_eq.
  - intros x e ne. apply String.eqb_neq in ne. rewrite e, ne in Ht. exact Ht.
  - intros x e ne. apply String.eqb_neq in ne. rewrite e, ne in Hc. exact Hc.
  - destruct (rangeQuery (field filter minCredits) (field filter maxCredits)) as [r|] eqn:er.
    + exact (rangeQuery_bounds _ _ _ _ er Hr).
    + split; intros m e ne; exfalso; eapply rangeQuery_set; try exact er;
        rewrite e; simpl; [left|right]; now destruct (Z.eqb_spec m 0).
Qed.

(** X20. Every course [getAllCourses] returns is a stored course that
    meets each filter given with a value other than the empty string and
    0: instructor, title pattern, code prefix, and credits between the
    two bounds inclusively; and with no requested limit, or one that is
    not negative, at most fifty courses come back. *)
Theorem getAllCourses_meets_filter E filter options st l :
  getAllCourses E filter options st = Ok l ->
  (forall c, In c l ->
     In c (courseDocs st)
     /\ (forall i, field filter f_instructor = Some i -> i <> "" -> Course.instructor c = i)
     /\ (forall p, field filter titleContains = Some p -> p <> "" ->
           regexTest E p true (Course.title c) = true)
     /\ (forall p, field filter codePrefix = Some p -> p <> "" ->
           regexTest E ("^" ++ p) true (Course.code c) = true)
     /\ (forall m, field filter minCredits = Some m -> m <> 0%Z -> (m <= Course.credits c)%Z)
     /\ (forall m, field filter maxCredits = Some m -> m <> 0%Z -> (Course.credits c <= m)%Z))
  /\ ((0 <= orElse (field options limit) 0)%Z -> List.length l <= 50).
Proof.
  intros H. split.
  - revert H. unfold getAllCourses.
    destruct (cursorSkip _ _) as [l0|] eqn:es; [|discriminate].
    intros [= <-] c Hc. apply cursorLimit_incl in Hc.
    apply (cursorSkip_incl _ _ _ _ c es) in Hc.
    assert (Hf : In c (List.filter (matchesCourse E (courseQuery filter)) (courseDocs st))).
    { destruct (whenTruthy (field options sortBy)); [|exact Hc].
      eapply Permutation_in; [apply sortCourses_perm | exact Hc]. }
    apply filter_In in Hf. split; [tauto|]. now apply matchesCourse_sound.
  - intros Hl. now apply (getAllCourses_page_bounded E filter options st l).
Qed.

Lemma getAllCourses_meets_filter_campus :
  getAllCourses refEnv (Some (mkCourseFilter (Some "cs") None None (Some 2%Z) (Some 4%Z)))
    None campus = Ok [Course.mk 1 "Logic" "CS101" 3 "Turing" [0]]
  /\ (2 <= 3 <= 4)%Z
  /\ literalRegex "^cs" true "CS101" = true.
Proof.
  assert (H : getAllCourses refEnv
                (Some (mkCourseFilter (Some "cs") None None (Some 2%Z) (Some 4%Z)))
                None campus = Ok [Course.mk 1 "Logic" "CS101" 3 "Turing" [0]])
    by reflexivity.
  destruct (proj1 (getAllCourses_meets_filter refEnv _ None campus _ H)
              _ (or_introl eq_refl)) as (_ & _ & _ & Hp & Hlo & Hhi).
  split; [exact H|]. split.
  - split; [apply (Hlo 2%Z eq_refl) | apply (Hhi 4%Z eq_refl)]; discriminate.
  - apply (Hp "cs" eq_refl). discriminate.
Defined.

Lemma cursorSkip_zero (A : Type) (l : list A) : cursorSkip 0 l = Ok l.
Proof. reflexivity. Qed.

(** X21. Called without options and without a filter, the paginated
    queries return the first ten documents of what the baseline queries
    return, in the same order; with a major alone as filter,
    [getAllStudents] returns the first ten of what the baseline
    [searchStudentsByMajor] returns. *)
Theorem default_page_of_baseline E st :
  getAllStudents E None None st = Ok (firstn 10 (Baseline.getAllStudents st))
  /\ getAllCourses E None None st = Ok (firstn 10 (Baseline.getAllCourses st))
  /\ (forall m, m <> "" ->
        getAllStudents E (Some (mkStudentFilter (Some m) None None None None)) None st
          = Ok (firstn 10 (Baseline.searchStudentsByMajor m st))).
Proof.
  assert (Hall : forall (A : Type) (l : list A), List.filter (fun _ => true) l = l).
  { intros A l. induction l as [|a l IH]; simpl; [reflexivity | now rewrite IH]. }
  split; [|split].
  - unfold getAllStudents, Baseline.getAllStudents. simpl.
    rewrite (filter_ext _ (fun _ => true)) by reflexivity. now rewrite Hall.
  - unfold getAllCourses, Baseline.getAllCourses. simpl.
    rewrite (filter_ext _ (fun _ => true)) by reflexivity. now rewrite Hall.
  - intros m ne. apply String.eqb_neq in ne.
    unfold getAllStudents, Baseline.searchStudentsByMajor, studentQuery, whenTruthy,
      truthyStr. simpl. rewrite ne. simpl.
    rewrite (filter_ext _ (fun s => (Student.major s =? m)%string)); [reflexivity|].
    intros s. unfold matchesStudent. simpl. now rewrite !andb_true_r.
Qed.

(** ** Signup, login and the bearer token *)

Lemma findUser_none A email users :
  findUser A email users = None
  <-> forall u, In u users -> toLowerCase A (User.email u) <> toLowerCase A email.
Proof.
  unfold findUser. split.
  - intros H u Hu. apply (find_none _ _ H) in Hu. now apply String.eqb_neq.
  - intros H. destruct (find _ users) as [u|] eqn:e; [|reflexivity].
    apply find_some in e. destruct e as [Hu e]. apply String.eqb_eq in e.
    now destruct (H u Hu).
Qed.

Lemma findUser_in A email users u :
  findUser A email users = Some u ->
  In u users /\ toLowerCase A (User.email u) = toLowerCase A email.
Proof.
  unfold findUser. intros H. apply find_some in H.
  split; [tauto | now apply String.eqb_eq].
Qed.

(** X22. [login] never changes the identities.  It fails with "User not
    found" exactly when no identity has the email up to letter case;
    otherwise it compares the password with the hash of the first such
    identity, fails with "Invalid password" when they differ, and else
    answers with a token for that identity and its id and email. *)
Theorem login_outcomes A email password now users :
  snd (login A email password now users) = users
  /\ (fst (login A email password now users) = Err UserNotFound
      <-> forall u, In u users -> toLowerCase A (User.email u) <> toLowerCase A email)
  /\ (forall u, findUser A email users = Some u ->
        In u users
        /\ toLowerCase A (User.email u) = toLowerCase A email
        /\ (bcryptCompare A password (User.password u) = false ->
            fst (login A email password now users) = Err InvalidPassword)
        /\ (bcryptCompare A password (User.password u) = true ->
            exists r, fst (login A email password now users) = Ok r
                      /\ authPayload r
                         = mkAuthPayload (createToken A u now)
                             (mkUserView (User.id u) (User.email u)))).
Proof.
  unfold login. split; [|split].
  - destruct (findUser A email users) as [u|]; [|reflexivity].
    now destruct (bcryptCompare A password (User.password u)).
  - rewrite <- findUser_none.
    destruct (findUser A email users) as [u|]; simpl.
    + destruct (bcryptCompare A password (User.password u)); simpl;
        split; discriminate.
    + tauto.
  - intros u Hu. destruct (findUser_in A email users u Hu) as [Hin He].
    rewrite Hu. split; [exact Hin|]. split; [exact He|]. split.
    + now intros ->.
    + intros ->. simpl. eexists. split; reflexivity.
Qed.

Lemma findUser_app A email l u :
  findUser A email (l ++ [u])
    = match findUser A email l with
      | Some d => Some d
      | None => if (toLowerCase A (User.email u) =? toLowerCase A email)%string
                then Some u else None
      end.
Proof.
  unfold findUser. induction l as [|d l IH]; simpl; [reflexivity|].
  now destruct (toLowerCase A (User.email d) =? toLowerCase A email)%string.
Qed.

(** X23. After a signup that succeeded, a login with the same password
    and the same email in any letter case succeeds and answers with the
    id and the email of the new identity, provided the hash compares
    equal to the password it was made from. *)
Theorem login_after_signup A email email' password now salt later users r users' :
  signup A email password now salt users = (Ok r, users') ->
  toLowerCase A email' = toLowerCase A email ->
  bcryptCompare A password (bcryptHash A password 10 salt) = true ->
  exists r',
    login A email' password later users' = (Ok r', users')
    /\ user (authPayload r') = mkUserView (toString now) email.
Proof.
  unfold signup.
  destruct (findUser A email users) as [u0|] eqn:ef; [discriminate|].
  destruct (includes "@" email); [|discriminate]. simpl.
  destruct (String.length password <? 6); [discriminate|].
  intros [= <- <-] El Hc.
  assert (Hf : findUser A email' (users ++ [User.mk (toString now) email
                                               (bcryptHash A password 10 salt)])
               = Some (User.mk (toString now) email (bcryptHash A password 10 salt))).
  { rewrite findUser_app.
    replace (findUser A email' users) with (@None User.t).
    - simpl. rewrite El. now rewrite String.eqb_refl.
    - symmetry. apply findUser_none. intros u Hu. rewrite El.
      exact (proj1 (findUser_none A email users) ef u Hu). }
  unfold login. rewrite Hf. simpl. rewrite Hc. simpl.
  eexists. split; reflexivity.
Qed.

Lemma login_after_signup_ref :
  exists r',
    login refAuth "Ann@Uni.EDU" "secret1" 1999
      (snd (signup refAuth "ann@uni.edu" "secret1" 1700 "salt" []))
    = (Ok r', snd (signup refAuth "ann@uni.edu" "secret1" 1700 "salt" []))
    /\ user (authPayload r') = mkUserView (toString 1700) "ann@uni.edu".
Proof.
  eapply (login_after_signup refAuth "ann@uni.edu" "Ann@Uni.EDU" "secret1"
            1700 "salt" 1999 []); reflexivity.
Defined.

(** X24. [signup] keeps the emails of the identities distinct up to
    letter case: if no two identities share one before a signup, none do
    after it, whether it succeeds or fails. *)
Theorem signup_keeps_emails_distinct A email password now salt users :
  distinctUsers A users ->
  distinctUsers A (snd (signup A email password now salt users)).
Proof.
  intros H. unfold signup.
  destruct (findUser A email users) as [u0|] eqn:ef; [exact H|].
  destruct (includes "@" email); [|exact H]. simpl.
  destruct (String.length password <? 6); [exact H|]. simpl.
  unfold distinctUsers. rewrite map_app. simpl. apply NoDup_snoc; [exact H|].
  intros Hin. apply in_map_iff in Hin. destruct Hin as [u [e Hu]].
  exact (proj1 (findUser_none A email users) ef u Hu e).
Qed.

Lemma signup_keeps_emails_distinct_ref :
  distinctUsers refAuth
    (snd (signup refAuth "ANN@uni.edu" "secret2" 1701 "pepper"
            (snd (signup refAuth "ann@uni.edu" "secret1" 1700 "salt" [])))).
Proof.
  apply signup_keeps_emails_distinct. apply signup_keeps_emails_distinct. constructor.
Defined.

Lemma replace_absent pat rep s : includes pat s = false -> replace pat rep s = s.
Proof.
  induction s as [|c s IH]; simpl.
  - intros H. apply orb_false_iff in H. destruct H as [H _]. now rewrite H.
  - intros H. apply orb_false_iff in H. destruct H as [H1 H2].
    rewrite H1. now rewrite IH.
Qed.

Lemma prefix_app p s : String.prefix p (p ++ s) = true.
Proof.
  induction p as [|c p IH]; simpl; [now destruct s|].
  destruct (ascii_dec c c); [exact IH | contradiction].
Qed.

Lemma drop_app p s : drop (String.length p) (p ++ s) = s.
Proof. induction p as [|c p IH]; simpl; [reflexivity | exact IH]. Qed.

(** X25. The caller identity of a request is what the token verifies to,
    whether the header is the token after the word Bearer and a space or
    the bare token, as long as the bare token is not empty and does not
    itself contain that prefix. *)
Theorem context_reads_the_token A tok :
  context A (Some ("Bearer " ++ tok)) = jwtVerify A tok
  /\ (tok <> "" -> includes "Bearer " tok = false ->
      context A (Some tok) = jwtVerify A tok).
Proof.
  split.
  - unfold context, getUserFromToken. simpl orElse.
    change (("Bearer " ++ tok =? "")%string) with false. cbv iota.
    unfold replace. fold replace.
    destruct tok; reflexivity.
  - intros ne Hn. unfold context, getUserFromToken. simpl orElse.
    apply String.eqb_neq in ne. rewrite ne. now rewrite replace_absent.
Qed.

(** ** The two variants of enrollment *)

(** X26. For a caller with an identity the guarded [enrollStudent] is the
    baseline [enrollStudentInCourse]: same answer and same store on every
    input; so a baseline enrollment that succeeds keeps the pairing of a
    store the mutations completed on. *)
Theorem enrollStudent_extends_baseline E u sid cid st :
  enrollStudent (Some u) sid cid st = Baseline.enrollStudentInCourse sid cid st
  /\ (completed E st ->
      forall s, fst (Baseline.enrollStudentInCourse sid cid st) = Ok s ->
        consistent (snd (Baseline.enrollStudentInCourse sid cid st))).
Proof.
  assert (He : enrollStudent (Some u) sid cid st
               = Baseline.enrollStudentInCourse sid cid st).
  { unfold enrollStudent, Baseline.enrollStudentInCourse.
    destruct (findStudent (objectId sid) (studentDocs st)) as [s|]; [|reflexivity].
    destruct (findCourse (objectId cid) (courseDocs st)) as [c|]; [|reflexivity].
    cbv zeta.
    match goal with
    | |- context [saveStudent ?d st] => destruct (saveStudent d st) as [[x|e] st1]
    end; [|reflexivity].
    match goal with
    | |- context [saveCourse ?d st1] => destruct (saveCourse d st1) as [[y|e] st2]
    end; reflexivity. }
  split; [exact He|].
  intros Hc s Hs. rewrite <- He in Hs |- *.
  destruct (enrollStudent (Some u) sid cid st) as [r st'] eqn:Ee.
  simpl in Hs. subst r. simpl snd.
  apply (completed_consistent E).
  apply (done_step E st (Some u) (EnrollStudent sid cid) (VStudent s) st'); [exact Hc|].
  unfold execute. now rewrite Ee.
Qed.
